(** * willi-agent: the deterministic EDIFACT core

    A shallow embedding of the EDIFACT tokenizer (delimiter detection,
    segment and element scanners, document building), of the fallback
    parser and explainer of [parseAndExplainMessage] and of the tool
    around it, of the mutation tester of [src/tools/edifactTester.js], of
    the places of [src/tools/edifactParserGenerator.js] that decide
    whether the module text it emits can be imported, and of the helpers
    of [src/tools/explainedToMarkdown.js], together with the properties
    the specification states about them.

    JavaScript strings are modelled as [string]: sequences of 8-bit code
    units (ISO 8859-1, the repertoire of the EDIFACT syntax levels UNOA to
    UNOC).  A one-character string such as [text[i]] or a delimiter is an
    [ascii]. *)

From Stdlib Require Import String Ascii List Bool Arith ZArith Lia.
From Stdlib Require Import DecimalString.
Import ListNotations.

Open Scope string_scope.
Open Scope list_scope.
Open Scope nat_scope.

(** ** JavaScript string primitives used by the sources *)

Module JS.

(** Truthiness of a string: only the empty string is falsy. *)
Definition truthy (s : string) : bool :=
  match s with
  | EmptyString => false
  | String _ _ => true
  end.

(** [cur += ch] *)
Definition push_char (cur : string) (ch : ascii) : string :=
  (cur ++ String ch EmptyString)%string.

(** [s.slice(n)] for a non-negative [n]. *)
Fixpoint slice_from (n : nat) (s : string) : string :=
  match n, s with
  | O, _ => s
  | S _, EmptyString => EmptyString
  | S k, String _ tl => slice_from k tl
  end.

(** [s.slice(0, n)] for a non-negative [n]. *)
Fixpoint slice_to (n : nat) (s : string) : string :=
  match n, s with
  | O, _ => EmptyString
  | S _, EmptyString => EmptyString
  | S k, String c tl => String c (slice_to k tl)
  end.

(** [s.slice(a, b)] for [0 <= a <= b]. *)
Definition slice (a b : nat) (s : string) : string :=
  slice_to (b - a) (slice_from a s).

(** [s[i]]: [None] is [undefined]. *)
Fixpoint char_at (i : nat) (s : string) : option ascii :=
  match s, i with
  | EmptyString, _ => None
  | String c _, O => Some c
  | String _ tl, S k => char_at k tl
  end.

(** [s.startsWith(p)] *)
Fixpoint startsWith (s p : string) : bool :=
  match p, s with
  | EmptyString, _ => true
  | String _ _, EmptyString => false
  | String a p', String b s' => Ascii.eqb a b && startsWith s' p'
  end.

(** [s.includes(p)] *)
Fixpoint includes (s p : string) : bool :=
  startsWith s p ||
  match s with
  | EmptyString => false
  | String _ tl => includes tl p
  end.

(** White space and line terminators of ECMAScript within one byte:
    TAB, LF, VT, FF, CR, SP and NBSP. *)
Definition is_white_space (c : ascii) : bool :=
  let n := nat_of_ascii c in
  ((9 <=? n) && (n <=? 13)) || (n =? 32) || (n =? 160).

Fixpoint trimStart (s : string) : string :=
  match s with
  | EmptyString => EmptyString
  | String c tl => if is_white_space c then trimStart tl else s
  end.

Fixpoint trimEnd (s : string) : string :=
  match s with
  | EmptyString => EmptyString
  | String c tl =>
      match trimEnd tl with
      | EmptyString => if is_white_space c then EmptyString
                       else String c EmptyString
      | r => String c r
      end
  end.

(** [s.trim()] *)
Definition trim (s : string) : string := trimEnd (trimStart s).

(** Upper-casing of one code unit: the letters a-z and the ISO 8859-1
    letters 224-254 other than the division sign.  The three code units
    whose upper-case form lies outside one byte (181, 223, 255) are kept
    as they are. *)
Definition upper_char (c : ascii) : ascii :=
  let n := nat_of_ascii c in
  if ((97 <=? n) && (n <=? 122))
     || ((224 <=? n) && (n <=? 254) && negb (n =? 247))
  then ascii_of_nat (n - 32) else c.

(** [s.toUpperCase()] *)
Fixpoint toUpperCase (s : string) : string :=
  match s with
  | EmptyString => EmptyString
  | String c tl => String (upper_char c) (toUpperCase tl)
  end.

Definition LF : ascii := ascii_of_nat 10.
Definition CR : ascii := ascii_of_nat 13.

(** [s.replace(/\r?\n/g, '')]: every line feed is removed, together with
    a carriage return directly before it. *)
Fixpoint strip_newlines (s : string) : string :=
  match s with
  | EmptyString => EmptyString
  | String c tl =>
      if Ascii.eqb c LF then strip_newlines tl
      else if Ascii.eqb c CR && startsWith tl (String LF EmptyString)
           then strip_newlines tl
           else String c (strip_newlines tl)
  end.

(** [String(n)] for a non-negative integer. *)
Definition String_of_nat (n : nat) : string :=
  NilZero.string_of_uint (Nat.to_uint n).

(** [s.padStart(2, '0')] *)
Definition padStart2 (s : string) : string :=
  match s with
  | EmptyString => "00"
  | String c EmptyString => String "0" (String c EmptyString)
  | _ => s
  end.

(** The values a caller can pass where a string is expected. *)
Inductive value : Type :=
| Undefined
| Null
| Boolean (b : bool)
| Number (z : Z)
| NaN
| Str (s : string)
| Object.

(** [typeof v === 'string'] *)
Definition is_string (v : value) : bool :=
  match v with
  | Str _ => true
  | _ => false
  end.

(** Truthiness of a value ([!v] is its negation). *)
Definition value_truthy (v : value) : bool :=
  match v with
  | Undefined | Null | NaN => false
  | Boolean b => b
  | Number z => negb (z =? 0)%Z
  | Str s => truthy s
  | Object => true
  end.

End JS.

(** ** Delimiter resolver *)

Record DelimiterSet : Type := mkDelims {
  componentSep : ascii;
  dataSep : ascii;
  releaseChar : ascii;
  segTerm : ascii
}.

Definition default_delimiters : DelimiterSet :=
  mkDelims ":" "+" "?" "'".

(** [detectDelimiters] of the generated module and [detectDelimsFromText]
    of the fallback parser: the same function. *)
Definition detectDelimiters (text : string) : DelimiterSet :=
  if JS.startsWith text "UNA" then
    let six := JS.slice 3 9 text in
    if String.length six =? 6 then
      match JS.char_at 0 six, JS.char_at 1 six,
            JS.char_at 3 six, JS.char_at 5 six with
      | Some c0, Some c1, Some c3, Some c5 => mkDelims c0 c1 c3 c5
      | _, _, _, _ => default_delimiters
      end
    else default_delimiters
  else default_delimiters.

Definition detectDelimsFromText : string -> DelimiterSet := detectDelimiters.

(** ** Segment tokenizer and element splitter *)

(** State of the [for] loop of [splitSegments]. *)
Record seg_state : Type := mkSegState {
  seg_out : list string;
  seg_cur : string;
  seg_released : bool
}.

(** One iteration of the loop body of [splitSegments]. *)
Definition seg_step (segTerm releaseChar : ascii) (st : seg_state) (ch : ascii)
  : seg_state :=
  if seg_released st then
    mkSegState (seg_out st) (JS.push_char (seg_cur st) ch) false
  else if Ascii.eqb ch releaseChar then
    mkSegState (seg_out st) (seg_cur st) true
  else if Ascii.eqb ch segTerm then
    let t := JS.trim (seg_cur st) in
    mkSegState (if JS.truthy t then seg_out st ++ [t] else seg_out st)
               EmptyString false
  else
    mkSegState (seg_out st) (JS.push_char (seg_cur st) ch) false.

Fixpoint seg_loop (segTerm releaseChar : ascii) (text : string) (st : seg_state)
  : seg_state :=
  match text with
  | EmptyString => st
  | String ch tl => seg_loop segTerm releaseChar tl
                      (seg_step segTerm releaseChar st ch)
  end.

(** The statement after the loop. *)
Definition seg_finish (st : seg_state) : list string :=
  if JS.truthy (JS.trim (seg_cur st))
  then seg_out st ++ [JS.trim (seg_cur st)]
  else seg_out st.

Definition seg_init : seg_state := mkSegState [] EmptyString false.

Definition splitSegments (text : string) (segTerm releaseChar : ascii)
  : list string :=
  seg_finish (seg_loop segTerm releaseChar text seg_init).

(** State of the loop of [splitElements]. *)
Record elt_state : Type := mkEltState {
  elt_out : list string;
  elt_cur : string;
  elt_released : bool
}.

Definition elt_step (sep releaseChar : ascii) (st : elt_state) (ch : ascii)
  : elt_state :=
  if elt_released st then
    mkEltState (elt_out st) (JS.push_char (elt_cur st) ch) false
  else if Ascii.eqb ch releaseChar then
    mkEltState (elt_out st) (elt_cur st) true
  else if Ascii.eqb ch sep then
    mkEltState (elt_out st ++ [elt_cur st]) EmptyString false
  else
    mkEltState (elt_out st) (JS.push_char (elt_cur st) ch) false.

Fixpoint elt_loop (sep releaseChar : ascii) (str : string) (st : elt_state)
  : elt_state :=
  match str with
  | EmptyString => st
  | String ch tl => elt_loop sep releaseChar tl (elt_step sep releaseChar st ch)
  end.

Definition elt_init : elt_state := mkEltState [] EmptyString false.

Definition splitElements (str : string) (sep releaseChar : ascii)
  : list string :=
  let st := elt_loop sep releaseChar str elt_init in
  elt_out st ++ [elt_cur st].

(** ** Documents and the baseline parser *)

Record RawSegment : Type := mkSegment {
  tag : string;
  position : nat;
  elements : list (list string)
}.

Record Document : Type := mkDocument {
  delimiters : DelimiterSet;
  segments : list RawSegment
}.

Record StructuralError : Type := mkError {
  code : string;
  message : string;
  segmentTag : string;
  err_position : nat;
  field : option string;
  value : option string
}.

(** What [parseEdifactToJson] resolves to: [{ json, errors }]. *)
Record ParseOutput : Type := mkOutput {
  json : Document;
  errors : list StructuralError
}.

(** A call either returns or throws [new Error(msg)]. *)
Inductive outcome (A : Type) : Type :=
| Return (a : A)
| Throw (msg : string).
Arguments Return {A} a.
Arguments Throw {A} msg.

(** [splitSegments(...).map(s => s.replace(/\r?\n/g, '').trim()).filter(Boolean)] *)
Definition segmentsRaw (text : string) (d : DelimiterSet) : list string :=
  filter JS.truthy
    (map (fun s => JS.trim (JS.strip_newlines s))
         (splitSegments text (segTerm d) (releaseChar d))).

(** Body of the loop [for (const raw of segmentsRaw)], [pos] being the
    value after [++pos]. *)
Definition build_segment (d : DelimiterSet) (pos : nat) (raw : string)
  : RawSegment :=
  let tag := JS.toUpperCase (JS.slice 0 3 raw) in
  let rest := JS.slice_from 3 raw in
  let elems := if JS.startsWith rest (String (dataSep d) EmptyString)
               then JS.slice_from 1 rest else rest in
  let data := map (fun e => splitElements e (componentSep d) (releaseChar d))
                  (splitElements elems (dataSep d) (releaseChar d)) in
  mkSegment tag pos data.

Fixpoint build_segments (d : DelimiterSet) (pos : nat) (raws : list string)
  : list RawSegment :=
  match raws with
  | [] => []
  | raw :: tl => build_segment d (S pos) raw :: build_segments d (S pos) tl
  end.

(** The tokenizing part shared by [parseEdifactToJson] and
    [baselineParseAndExplain]: the object [json]. *)
Definition parse_document (text : string) : Document :=
  let d := detectDelimiters text in
  mkDocument d (build_segments d 0 (segmentsRaw text d)).

(** [segments.find(s => s.tag === t)] *)
Definition find_tag (t : string) (segs : list RawSegment) : option RawSegment :=
  find (fun s => String.eqb (tag s) t) segs.

(** [(s.elements[i] || [])[0]]; [None] is [undefined]. *)
Definition first_component (s : RawSegment) (i : nat) : option string :=
  match nth_error (elements s) i with
  | Some comps => nth_error comps 0
  | None => None
  end.

(** [/^[A-Z]{3,6}$/.test(s)] *)
Definition is_format_code (s : string) : bool :=
  (3 <=? String.length s) && (String.length s <=? 6)
  && forallb (fun c => let n := nat_of_ascii c in (65 <=? n) && (n <=? 90))
             (list_ascii_of_string s).

(** The parsing part of [baselineParseAndExplain(text, assumedFormat)]:
    the fields [json], [errors] and [format] of its result.  [None] is an
    [assumedFormat] that was not given. *)
Record BaselineOutput : Type := mkBaseline {
  b_json : Document;
  b_errors : list StructuralError;
  b_format : option string
}.

Definition baselineParseAndExplain (text : string)
  (assumedFormat : option string) : BaselineOutput :=
  let doc := parse_document text in
  let fmt :=
    match find_tag "UNH" (segments doc) with
    | Some firstUNH =>
        match first_component firstUNH 1 with
        | Some type =>
            if JS.truthy type && is_format_code type
            then Some (JS.toUpperCase type) else assumedFormat
        | None => assumedFormat
        end
    | None => assumedFormat
    end in
  mkBaseline doc [] fmt.

(** ** Mapping tables and annotated fields *)

(** An entry of [fields].  An absent or empty [path], [name] or
    [description] is the empty string (both are falsy where the code tests
    them). *)
Record MappingEntry : Type := mkField {
  path : string;
  name : string;
  description : string
}.

Record SegmentMapping : Type := mkSegMap {
  segmentDescription : string;
  notes : string;
  m_fields : option (list MappingEntry)
}.

(** A mapping object: its own keys in order, each with its value. *)
Definition MappingTable : Type := list (string * SegmentMapping).

(** [mapping?.[tag]] *)
Fixpoint lookup {A : Type} (k : string) (m : list (string * A)) : option A :=
  match m with
  | [] => None
  | (k', v) :: tl => if String.eqb k' k then Some v else lookup k tl
  end.

Definition fld (p n d : string) : MappingEntry := mkField p n d.

(** [pad2(n)]: [String(n+1).padStart(2, '0')] *)
Definition pad2 (n : nat) : string := JS.padStart2 (JS.String_of_nat (n + 1)).

Definition path_of (tag : string) (i j : nat) : string :=
  (tag ++ "/" ++ pad2 i ++ "/" ++ pad2 j)%string.

(** The statement [if (qDesc) description = ...]. *)
Definition add_qualifier (description q : string) (qDesc : option string)
  : string :=
  match qDesc with
  | Some qd =>
      if JS.truthy qd then
        if JS.truthy description
        then (description ++ " (qualifier " ++ q ++ ": " ++ qd ++ ")")%string
        else ("Qualifier " ++ q ++ ": " ++ qd)%string
      else description
  | None => description
  end.

Record AnnotatedField : Type := mkAnnField {
  f_path : string;
  f_name : string;
  f_description : option string;
  f_value : string
}.

Record AnnotatedSegment : Type := mkAnnSegment {
  segment : string;
  a_position : nat;
  a_description : string;
  fields : list AnnotatedField
}.

Record Explained : Type := mkExplained {
  parsed : ParseOutput;
  explanations : list AnnotatedSegment
}.

(** ** Conformance tester *)

(** A loaded parser module that exports both functions. *)
Record ParserModule : Type := mkModule {
  mod_parseEdifactToJson : JS.value -> outcome ParseOutput;
  mod_explain : ParseOutput -> outcome Explained
}.

Record Sample : Type := mkSample {
  s_name : string;
  text : string
}.

Record TestResult : Type := mkResult {
  r_name : string;
  ok : bool;
  error : option string;
  parsedSummary : option (list string)
}.

Record TestReport : Type := mkReport {
  success : bool;
  results : list TestResult
}.

(** [s.replace(/\+\+/g, '+?+')]; [skip] counts the characters of the
    current match that are still to be consumed. *)
Fixpoint replace_plus_plus (skip : nat) (s : string) : string :=
  match s with
  | EmptyString => EmptyString
  | String c tl =>
      match skip with
      | S k => replace_plus_plus k tl
      | O => if JS.startsWith s "++"
             then ("+?+" ++ replace_plus_plus 1 tl)%string
             else String c (replace_plus_plus 0 tl)
      end
  end.

(** Line terminators within one byte: LF and CR. *)
Definition is_line_terminator (c : ascii) : bool :=
  Ascii.eqb c JS.LF || Ascii.eqb c JS.CR.

(** [s.replace(/^UNH/gm, 'UXH')]; [bol] tells whether the current
    position is the start of the input or follows a line terminator. *)
Fixpoint replace_line_UNH (bol : bool) (skip : nat) (s : string) : string :=
  match s with
  | EmptyString => EmptyString
  | String c tl =>
      match skip with
      | S k => replace_line_UNH false k tl
      | O => if bol && JS.startsWith s "UNH"
             then ("UXH" ++ replace_line_UNH false 2 tl)%string
             else String c (replace_line_UNH (is_line_terminator c) 0 tl)
      end
  end.

Definition glitch (s : string) : string :=
  replace_line_UNH true 0 (replace_plus_plus 0 s).

(** The pattern tested on an error code. *)
Definition detection_codes : list string :=
  [ "UNKNOWN_SEGMENT"; "MALFORMED_SEGMENT_TAG"; "INVALID_SEGMENT_TAG";
    "UNH_OUT_OF_SEQUENCE"; "SEGMENT_OUT_OF_MESSAGE_SCOPE" ].

Definition code_detected (c : string) : bool :=
  existsb (fun p => JS.includes c p) detection_codes.

(** [Object.keys(parsed).slice(0, 10)] for a [{ json, errors }]. *)
Definition summary_keys : list string := [ "json"; "errors" ].

(** Body of the first loop: one sample, unchanged. *)
Definition run_sample (m : ParserModule) (s : Sample) : TestResult :=
  match mod_parseEdifactToJson m (JS.Str (text s)) with
  | Return parsed =>
      match mod_explain m parsed with
      | Return _ => mkResult (s_name s) true None (Some summary_keys)
      | Throw e => mkResult (s_name s) false (Some e) None
      end
  | Throw e => mkResult (s_name s) false (Some e) None
  end.

(** Body of the second loop: one sample, mutated. *)
Definition run_mutated (m : ParserModule) (s : Sample) : TestResult :=
  let nm := (s_name s ++ " (mutated)")%string in
  match mod_parseEdifactToJson m (JS.Str (glitch (text s))) with
  | Return res =>
      let detected := existsb (fun e => code_detected (code e)) (errors res) in
      if detected then mkResult nm true None None
      else mkResult nm false
             (Some "Parser did not detect malformed segment tag") None
  | Throw _ => mkResult nm true None None
  end.

(** The tester on a module that loaded and exports both functions. *)
Definition edifactTester (m : ParserModule) (samples : list Sample)
  : TestReport :=
  let results := map (run_sample m) samples
                 ++ map (run_mutated m) (firstn 2 samples) in
  mkReport (forallb ok results) results.

(** ** Specification-side notions *)

(** The sample message of the conformance scenario. *)
Definition sample_text : string :=
  "UNB+UNOC:3+S:R+R:S+250101:0101+REF'UNH+1+APERAK:D:07B:UN:2.1i'BGM+312+X'UNT+4+1'UNZ+1+REF'".

(** Number of occurrences of [sep] in [s] that are not preceded by an
    active release character; [released] tells whether the character
    before [s] was one. *)
Fixpoint unescaped_count (sep rel : ascii) (released : bool) (s : string)
  : nat :=
  match s with
  | EmptyString => 0
  | String c tl =>
      if released then unescaped_count sep rel false tl
      else if Ascii.eqb c sep then S (unescaped_count sep rel false tl)
      else unescaped_count sep rel (Ascii.eqb c rel) tl
  end.

(** The text with every active release character removed and the
    character it releases kept. *)
Fixpoint unescape (rel : ascii) (released : bool) (s : string) : string :=
  match s with
  | EmptyString => EmptyString
  | String c tl =>
      if released then String c (unescape rel false tl)
      else if Ascii.eqb c rel then unescape rel true tl
      else String c (unescape rel false tl)
  end.

(** Four pairwise distinct characters. *)
Definition distinct_delimiters (d : DelimiterSet) : Prop :=
  componentSep d <> dataSep d /\ componentSep d <> releaseChar d /\
  componentSep d <> segTerm d /\ dataSep d <> releaseChar d /\
  dataSep d <> segTerm d /\ releaseChar d <> segTerm d.

(** The text does not consist of the tag [UNA] and six more characters
    at least: the tag is absent or fewer than six characters follow it. *)
Definition no_advice (text : string) : Prop :=
  ~ (exists rest, text = ("UNA" ++ rest)%string) \/ String.length text < 9.

(** The tag [UNA], six characters and the rest of the text. *)
Definition advice_text (c0 c1 c2 c3 c4 c5 : ascii) (rest : string) : string :=
  ("UNA" ++ String c0 (String c1 (String c2 (String c3 (String c4
     (String c5 rest))))))%string.

(** The advice [UNA:+.? '] that declares the default delimiters. *)
Definition standard_advice : string := "UNA:+.? '".

Definition shift_position (s : RawSegment) : RawSegment :=
  mkSegment (tag s) (S (position s)) (elements s).

(** The sample message with one segment per line. *)
Definition sample_lines : string :=
  ("UNB+UNOC:3+S:R+R:S+250101:0101+REF'" ++ String JS.LF
   "UNH+1+APERAK:D:07B:UN:2.1i'" ++ String JS.LF
   "BGM+312+X'" ++ String JS.LF
   "UNT+4+1'" ++ String JS.LF
   "UNZ+1+REF'")%string.

(** ** The explaining part of the fallback parser *)

(** [arr.join(sep)] *)
Fixpoint join (sep : string) (l : list string) : string :=
  match l with
  | [] => EmptyString
  | [x] => x
  | x :: tl => (x ++ sep ++ join sep tl)%string
  end.

(** [s.split(sep)] for a separator of one character. *)
Fixpoint split_loop (sep : ascii) (cur : string) (s : string) : list string :=
  match s with
  | EmptyString => [cur]
  | String c tl =>
      if Ascii.eqb c sep then cur :: split_loop sep EmptyString tl
      else split_loop sep (JS.push_char cur c) tl
  end.

Definition split_string (sep : ascii) (s : string) : list string :=
  split_loop sep EmptyString s.

(** [defaultMap] of [baselineParseAndExplain]. *)
Definition defaultMap : MappingTable :=
  [ ("UNH", mkSegMap "Message header" "" (Some
      [ fld "UNH/01/01" "Message reference number (0062)" "Sender-assigned message reference";
        fld "UNH/02/01" "Message type (0065)" "Type, e.g., APERAK";
        fld "UNH/02/02" "Version (0052)" "Message version";
        fld "UNH/02/03" "Release (0054)" "Message release";
        fld "UNH/02/04" "Controlling agency (0051)" "UN or others";
        fld "UNH/02/05" "Association assigned code (0057)" "Association code" ]));
    ("BGM", mkSegMap "Beginning of message" "" (Some
      [ fld "BGM/01/01" "Document/message name, coded (1001)" "Identifies document/message";
        fld "BGM/02/01" "Document/message number (1004)" "Document identifier";
        fld "BGM/03/01" "Message function, coded (1225)" "Function of the message" ]));
    ("DTM", mkSegMap "Date/time/period" "" (Some
      [ fld "DTM/01/01" "Date/time/period qualifier (2005)" "137=Doc date/time, 171=Reference date/time";
        fld "DTM/01/02" "Date/time/period (2380)" "Value per 2379";
        fld "DTM/01/03" "Format qualifier (2379)" "203=CCYYMMDDHHMM, 303=YYMMDDHHMM" ]));
    ("RFF", mkSegMap "Reference" "" (Some
      [ fld "RFF/01/01" "Reference qualifier (1153)" "ON=Order, TN=Transaction, ACE=Account";
        fld "RFF/01/02" "Reference number (1154)" "Reference identifier";
        fld "RFF/01/03" "Line number (1156)" "Related line number" ]));
    ("NAD", mkSegMap "Name and address" "" (Some
      [ fld "NAD/01/01" "Party function qualifier (3035)" "MS=Sender, MR=Recipient";
        fld "NAD/02/01" "Party id (3039)" "Party identifier";
        fld "NAD/02/02" "Code list qualifier (1131)" "Qualifier for code list";
        fld "NAD/02/03" "Code list agency (3055)" "e.g., 293" ]));
    ("UNB", mkSegMap "Interchange header" "" (Some
      [ fld "UNB/01/01" "Syntax id (0001)" "UNOC etc.";
        fld "UNB/01/02" "Syntax version (0002)" "Version of syntax";
        fld "UNB/02/01" "Sender id (0004)" "Interchange sender";
        fld "UNB/02/02" "Sender qualifier (0007)" "Qualifier";
        fld "UNB/03/01" "Recipient id (0010)" "Interchange recipient";
        fld "UNB/03/02" "Recipient qualifier (0007)" "Qualifier";
        fld "UNB/04/01" "Date (0017)" "YYMMDD/CCYYMMDD";
        fld "UNB/04/02" "Time (0019)" "HHMM";
        fld "UNB/05/01" "Interchange control ref (0020)" "Control reference" ]));
    ("UNT", mkSegMap "Message trailer" "" (Some
      [ fld "UNT/01/01" "Segment count (0074)" "Count incl. UNH and UNT";
        fld "UNT/02/01" "Message ref (0062)" "Must match UNH ref" ]));
    ("UNZ", mkSegMap "Interchange trailer" "" (Some
      [ fld "UNZ/01/01" "Message/group count (0036)" "Number of messages/groups";
        fld "UNZ/02/01" "Interchange control ref (0020)" "Must match UNB control ref" ])) ].

(** The qualifier tables of [baselineParseAndExplain]: their own keys. *)
Definition fallback_qualifiers_DTM : list (string * string) :=
  [ ("137", "Document/message date/time");
    ("171", "Reference date/time") ].

Definition fallback_qualifiers_RFF : list (string * string) :=
  [ ("ON", "Order number");
    ("TN", "Transaction/reference number");
    ("ACE", "Reference (ACE)");
    ("AGO", "Agreement/order reference") ].

(** The functions every object literal inherits from [Object.prototype],
    each with the name Node prints for it. *)
Definition object_prototype_functions : list (string * string) :=
  [ ("constructor", "Object");
    ("__defineGetter__", "__defineGetter__");
    ("__defineSetter__", "__defineSetter__");
    ("hasOwnProperty", "hasOwnProperty");
    ("__lookupGetter__", "__lookupGetter__");
    ("__lookupSetter__", "__lookupSetter__");
    ("isPrototypeOf", "isPrototypeOf");
    ("propertyIsEnumerable", "propertyIsEnumerable");
    ("toString", "toString");
    ("valueOf", "valueOf");
    ("toLocaleString", "toLocaleString") ].

(** The text that string concatenation makes of [table[q]] when [q] is an
    inherited property name: a native function, or for [__proto__] the
    prototype object. *)
Definition inherited_text (q : string) : option string :=
  match lookup q object_prototype_functions with
  | Some n => Some ("function " ++ n ++ "() { [native code] }")%string
  | None => if String.eqb q "__proto__" then Some "[object Object]"
            else None
  end.

(** [qualifiers.T[q]] as the text it contributes: the meaning under an
    own key, else what the object inherits under that name; [None] is
    [undefined]. *)
Definition qualifier_text (table : list (string * string)) (q : string)
  : option string :=
  match lookup q table with
  | Some m => Some m
  | None => inherited_text q
  end.

(** [getFieldMeta(tag, i, j)] of [baselineParseAndExplain]:
    [m.fields.find(f => f.path === p2) || null]. *)
Definition fallback_getFieldMeta (mapping : MappingTable) (tag : string)
  (i j : nat) : option MappingEntry :=
  match lookup tag mapping with
  | Some m =>
      match m_fields m with
      | Some fields =>
          find (fun f => String.eqb (path f) (path_of tag i j)) fields
      | None => None
      end
  | None => None
  end.

(** Body of the inner loop of [explainSegment] in
    [baselineParseAndExplain]. *)
Definition fallback_explainComponent (mapping : MappingTable) (tag : string)
  (i j : nat) (val : string) : AnnotatedField :=
  let meta := fallback_getFieldMeta mapping tag i j in
  let generic := ("Component " ++ JS.String_of_nat (i + 1) ++ "."
                    ++ JS.String_of_nat (j + 1))%string in
  let name :=
    match meta with
    | Some f => if JS.truthy (name f) then name f else generic
    | None => generic
    end in
  let description :=
    match meta with
    | Some f => description f
    | None => EmptyString
    end in
  let description :=
    if String.eqb tag "DTM" && (j =? 0) then
      let q := JS.trim val in
      add_qualifier description q (qualifier_text fallback_qualifiers_DTM q)
    else description in
  let description :=
    if String.eqb tag "RFF" && (j =? 0) then
      let q := JS.trim val in
      add_qualifier description q (qualifier_text fallback_qualifiers_RFF q)
    else description in
  mkAnnField (path_of tag i j) name
             (if JS.truthy description then Some description else None)
             val.

Fixpoint fallback_explainComponents (mapping : MappingTable) (tag : string)
  (i j : nat) (comps : list string) : list AnnotatedField :=
  match comps with
  | [] => []
  | val :: tl => fallback_explainComponent mapping tag i j val
                 :: fallback_explainComponents mapping tag i (S j) tl
  end.

Fixpoint fallback_explainElements (mapping : MappingTable) (tag : string)
  (i : nat) (elems : list (list string)) : list AnnotatedField :=
  match elems with
  | [] => []
  | comps :: tl => fallback_explainComponents mapping tag i 0 comps
                   ++ fallback_explainElements mapping tag (S i) tl
  end.

Definition fallback_explainSegment (mapping : MappingTable) (s : RawSegment)
  : AnnotatedSegment :=
  let segDesc :=
    match lookup (tag s) mapping with
    | Some m =>
        if JS.truthy (segmentDescription m) then segmentDescription m
        else if JS.truthy (notes m) then notes m
        else ("Segment " ++ tag s)%string
    | None => ("Segment " ++ tag s)%string
    end in
  mkAnnSegment (tag s) (position s) segDesc
               (fallback_explainElements mapping (tag s) 0 (elements s)).

(** The field [explanations.segments] of the result of
    [baselineParseAndExplain(text, assumedFormat)]; the other fields are
    those of [baselineParseAndExplain] above. *)
Definition baselineExplanations (text : string) : list AnnotatedSegment :=
  map (fallback_explainSegment defaultMap) (segments (parse_document text)).

(** ** The tool around the fallback parser *)

(** The characters before the first quote. *)
Fixpoint until_quote (s : string) : string :=
  match s with
  | EmptyString => EmptyString
  | String c tl => if Ascii.eqb c "'" then EmptyString
                   else String c (until_quote tl)
  end.

(** [/UNH[^']*/.exec(text)]: the matched text, [None] without a match. *)
Fixpoint exec_UNH (s : string) : option string :=
  match s with
  | EmptyString => None
  | String _ tl => if JS.startsWith s "UNH" then Some (until_quote s)
                   else exec_UNH tl
  end.

(** [a || b] for the optional format. *)
Definition truthy_format (f : option string) : bool :=
  match f with
  | Some s => JS.truthy s
  | None => false
  end.

(** The first derivation of the format from the text: [pieces[2]], when
    truthy, gives [pieces[2].split(':')[0].toUpperCase()]. *)
Definition format_from_text (text : string) : option string :=
  match exec_UNH text with
  | Some part =>
      match nth_error (split_string "+" part) 2 with
      | Some p => if JS.truthy p
                  then Some (JS.toUpperCase (hd EmptyString (split_string ":" p)))
                  else None
      | None => None
      end
  | None => None
  end.

(** The tool [parse_and_explain_message] on a text and an optional format,
    when no prebuilt parser can be loaded for the format (an absent or
    unusable [artifacts/<format>/parser.js]): the field [format] of the
    result, the field [explained] being the result of
    [baselineParseAndExplain(text, fmt)]. *)
Definition tool_fmt (text : string) (format : option string) : option string :=
  let fmt := if truthy_format format then format
             else match format_from_text text with
                  | Some f => Some f
                  | None => format
                  end in
  if truthy_format fmt then fmt
  else match format_from_text text with
       | Some cand => if JS.truthy cand then Some cand else fmt
       | None => fmt
       end.

Definition tool_format (text : string) (format : option string) : string :=
  let fmt := tool_fmt text format in
  let explained := baselineParseAndExplain text fmt in
  if truthy_format (b_format explained)
  then match b_format explained with Some f => f | None => "UNKNOWN" end
  else if truthy_format fmt
       then match fmt with Some f => f | None => "UNKNOWN" end
       else "UNKNOWN".

(** ** Rendering helpers of the Markdown tool *)

(** [isTabular(segmentTag)] *)
Definition isTabular (segmentTag : string) : bool :=
  existsb (String.eqb segmentTag)
          [ "LIN"; "QTY"; "PRI"; "MOA"; "NAD"; "RFF"; "DTM" ].

Definition PIPE : ascii := ascii_of_nat 124.
Definition BACKSLASH : ascii := ascii_of_nat 92.

(** [mdEscape(s)] for a string: [s.replace(/\|/g, '\\|')]. *)
Fixpoint mdEscape (s : string) : string :=
  match s with
  | EmptyString => EmptyString
  | String c tl =>
      if Ascii.eqb c PIPE then String BACKSLASH (String PIPE (mdEscape tl))
      else String c (mdEscape tl)
  end.

(** One iteration of the grouping loop: [groups] is the [Map] in
    insertion order. *)
Fixpoint group_add (s : AnnotatedSegment)
  (groups : list (string * list AnnotatedSegment))
  : list (string * list AnnotatedSegment) :=
  match groups with
  | [] => [(segment s, [s])]
  | (k, g) :: tl =>
      if String.eqb k (segment s) then (k, g ++ [s]) :: tl
      else (k, g) :: group_add s tl
  end.

(** The loop [for (const s of segments)] that fills [groups]. *)
Definition group_segments (segs : list AnnotatedSegment)
  : list (string * list AnnotatedSegment) :=
  fold_left (fun groups s => group_add s groups) segs [].

(** One [allFields.set(f.name || f.path, true)]. *)
Fixpoint header_add (h : string) (headers : list string) : list string :=
  match headers with
  | [] => [h]
  | k :: tl => if String.eqb k h then headers else k :: header_add h tl
  end.

Definition field_key (f : AnnotatedField) : string :=
  if JS.truthy (f_name f) then f_name f else f_path f.

(** [headers]: the keys of [allFields] after the loops over the segments
    of a group and their fields. *)
Definition table_headers (segs : list AnnotatedSegment) : list string :=
  fold_left (fun hs f => header_add (field_key f) hs)
            (flat_map fields segs) [].

(** ** The text of the generated modules and their import *)

Definition TAB : ascii := ascii_of_nat 9.
Definition DQUOTE : ascii := ascii_of_nat 34.

(** The character a template literal makes of the escape sequence
    backslash-[c], for the sequences of one character. *)
Definition cooked_escape (c : ascii) : ascii :=
  if Ascii.eqb c "n" then JS.LF
  else if Ascii.eqb c "r" then JS.CR
  else if Ascii.eqb c "t" then TAB
  else if Ascii.eqb c "b" then ascii_of_nat 8
  else if Ascii.eqb c "v" then ascii_of_nat 11
  else if Ascii.eqb c "f" then ascii_of_nat 12
  else if Ascii.eqb c "0" then ascii_of_nat 0
  else c.

(** The text an untagged template literal stands for: every backslash is
    consumed with the character after it.  [esc] tells whether the
    character before [s] was such a backslash.  (Substitutions, line
    continuations and the escapes with [x] and [u] do not occur in the
    lines below.) *)
Fixpoint cook (esc : bool) (s : string) : string :=
  match s with
  | EmptyString => EmptyString
  | String c tl =>
      if esc then String (cooked_escape c) (cook false tl)
      else if Ascii.eqb c BACKSLASH then cook true tl
      else String c (cook false tl)
  end.

(** Line 19 of [edifactParserGenerator.js], inside the template literal of
    the baseline module (lines 11 to 254). *)
Definition template_line_19 : string := "  let segTerm = '\'';".

(** The regular expression literal of line 77, inside the same template
    literal, and the one of line 263, inside the template literal of the
    mock module (lines 259 to 295). *)
Definition template_regex_77 : string := "/\r?\n/g".
Definition template_regex_263 : string := "/\r?\n/".

(** Whether a line of JavaScript made of plain tokens and string literals
    ends inside a string literal.  [q] is the quote of the literal the
    scan is in, [esc] whether the character before was a backslash inside
    it. *)
Fixpoint ends_in_string (q : option ascii) (esc : bool) (line : string)
  : bool :=
  match line with
  | EmptyString => match q with Some _ => true | None => false end
  | String c tl =>
      match q with
      | None =>
          if Ascii.eqb c "'" || Ascii.eqb c DQUOTE
          then ends_in_string (Some c) false tl
          else ends_in_string None false tl
      | Some d =>
          if esc then ends_in_string q false tl
          else if Ascii.eqb c BACKSLASH then ends_in_string q true tl
          else if Ascii.eqb c d then ends_in_string None false tl
          else ends_in_string q false tl
      end
  end.

Fixpoint has_line_terminator (s : string) : bool :=
  match s with
  | EmptyString => false
  | String c tl => is_line_terminator c || has_line_terminator tl
  end.

(** The emitted text of the baseline module is a module only if the
    emitted line 19 closes its string literals and the emitted regular
    expression literal of line 77 stays on one line; likewise the mock
    module and its line 263. *)
Definition baseline_text_loads : bool :=
  negb (ends_in_string None false (cook false template_line_19))
  && negb (has_line_terminator (cook false template_regex_77)).

Definition mock_text_loads : bool :=
  negb (has_line_terminator (cook false template_regex_263)).

(** What [import()] gives for a module: each of the two exports, [None]
    when it is not a function. *)
Record LoadedModule : Type := mkLoaded {
  exp_parseEdifactToJson : option (JS.value -> outcome ParseOutput);
  exp_explain : option (ParseOutput -> outcome Explained)
}.

(** [await import(file)] of the emitted baseline module and of the
    emitted mock module: a [SyntaxError] (with the message Node gives)
    unless the text loads, else the module object, [exports] being what
    the text would export. *)
Definition import_baseline (exports : LoadedModule) : outcome LoadedModule :=
  if baseline_text_loads then Return exports
  else Throw "Invalid or unexpected token".

Definition import_mock (exports : LoadedModule) : outcome LoadedModule :=
  if mock_text_loads then Return exports
  else Throw "Invalid regular expression: missing /".

(** What the tool [test_edifact_parser_module] returns:
    [{ success: false, error }] or [{ success, results }]. *)
Inductive ToolResult : Type :=
| ToolFailure (error : string)
| ToolReport (r : TestReport).

(** The tool [test_edifact_parser_module] of [createEdifactTester], given
    the outcome of importing the module code it wrote to a file. *)
Definition test_edifact_parser_module (imported : outcome LoadedModule)
  (samples : list Sample) : ToolResult :=
  match imported with
  | Throw msg => ToolFailure ("Module import failed: " ++ msg)
  | Return loaded =>
      match exp_parseEdifactToJson loaded, exp_explain loaded with
      | Some p, Some e => ToolReport (edifactTester (mkModule p e) samples)
      | _, _ =>
          ToolFailure "Module does not export parseEdifactToJson and explain"
      end
  end.

(** The script [explain-one] from the import of the parser on: import,
    check of the exports, [parseEdifactToJson(text)], [explain(parsed)].
    A [Throw] is a run that ends with an error message. *)
Definition explain_one (imported : outcome LoadedModule) (text : string)
  : outcome Explained :=
  match imported with
  | Throw msg => Throw msg
  | Return loaded =>
      match exp_parseEdifactToJson loaded, exp_explain loaded with
      | Some p, Some e =>
          match p (JS.Str text) with
          | Return parsed => e parsed
          | Throw msg => Throw msg
          end
      | _, _ => Throw "Parser does not export parseEdifactToJson and explain"
      end
  end.

(** ** Further specification-side notions *)

(** Every code unit of the text is below 128. *)
Fixpoint is_ascii_text (s : string) : Prop :=
  match s with
  | EmptyString => True
  | String c tl => nat_of_ascii c < 128 /\ is_ascii_text tl
  end.

(** A segment with content: a tag, an element, and a component in every
    element. *)
Definition has_content (s : RawSegment) : Prop :=
  tag s <> EmptyString
  /\ elements s <> []
  /\ Forall (fun e => e <> []) (elements s).

(** The generic annotation of component [j] of element [i] (both from
    0). *)
Definition generic_field (t : string) (i j : nat) (v : string)
  : AnnotatedField :=
  mkAnnField (path_of t i j)
             ("Component " ++ JS.String_of_nat (i + 1) ++ "."
                ++ JS.String_of_nat (j + 1))
             None v.

(** The generic annotations of all components, each under its own
    indices, element by element. *)
Definition generic_fields (t : string) (elems : list (list string))
  : list AnnotatedField :=
  flat_map
    (fun ic => map (fun jv => generic_field t (fst ic) (fst jv) (snd jv))
                   (combine (seq 0 (length (snd ic))) (snd ic)))
    (combine (seq 0 (length elems)) elems).

(** The descriptions of the fields, segment by segment. *)
Definition field_descriptions (l : list AnnotatedSegment)
  : list (list (option string)) :=
  map (fun a => map f_description (fields a)) l.

(** A message of type INVOIC, to be checked against the expected type
    APERAK. *)
Definition mismatch_text : string :=
  "UNH+1+INVOIC:D:07B:UN:2.1i'BGM+312+X'UNT+3+1'".

(** The character [rel] does not occur in the text. *)
Fixpoint absent (rel : ascii) (s : string) : Prop :=
  match s with
  | EmptyString => True
  | String c tl => c <> rel /\ absent rel tl
  end.

(** A raw segment as the tokenizer hands it on: not empty, and white
    space neither at its start nor at its end. *)
Definition is_trimmed (s : string) : Prop :=
  JS.truthy s = true /\ JS.trim s = s.

(** What the tester accepts as detection in a mutated run. *)
Definition detects (m : ParserModule) (s : Sample) : Prop :=
  match mod_parseEdifactToJson m (JS.Str (glitch (text s))) with
  | Return res => exists e, In e (errors res) /\ code_detected (code e) = true
  | Throw _ => True
  end.

(** The unchanged run of a sample goes through. *)
Definition passes (m : ParserModule) (s : Sample) : Prop :=
  exists parsed e,
    mod_parseEdifactToJson m (JS.Str (text s)) = Return parsed
    /\ mod_explain m parsed = Return e.

(** A pipe that is not directly after a backslash; [esc] tells whether
    the character before [s] is a backslash. *)
Fixpoint has_bare_pipe (esc : bool) (s : string) : bool :=
  match s with
  | EmptyString => false
  | String c tl =>
      (Ascii.eqb c PIPE && negb esc) || has_bare_pipe (Ascii.eqb c BACKSLASH) tl
  end.

(** The text with every backslash that stands directly before a pipe
    removed. *)
Fixpoint md_unescape (s : string) : string :=
  match s with
  | EmptyString => EmptyString
  | String c tl =>
      if Ascii.eqb c BACKSLASH && JS.startsWith tl (String PIPE EmptyString)
      then md_unescape tl
      else String c (md_unescape tl)
  end.

(** A well-formed segment of a document. *)
Definition well_shaped (s : RawSegment) : Prop :=
  1 <= String.length (tag s) <= 3
  /\ JS.toUpperCase (tag s) = tag s
  /\ elements s <> []
  /\ Forall (fun e => e <> []) (elements s).

(** * Properties *)

(** ** Strings *)

Lemma append_nil_r (s : string) : (s ++ "")%string = s.
Proof.
  induction s as [|c s IH]; simpl; [reflexivity | now rewrite IH].
Qed.

Lemma append_assoc (a b c : string) :
  ((a ++ b) ++ c)%string = (a ++ (b ++ c))%string.
Proof.
  induction a as [|x a IH]; simpl; [reflexivity | now rewrite IH].
Qed.

Lemma push_char_append (a : string) (c : ascii) (b : string) :
  (JS.push_char a c ++ b)%string = (a ++ String c b)%string.
Proof.
  unfold JS.push_char. now rewrite append_assoc.
Qed.

Lemma startsWith_spec (s p : string) :
  JS.startsWith s p = true <-> exists rest, s = (p ++ rest)%string.
Proof.
  revert s. induction p as [|a p IH]; intros s; simpl.
  - split; [intros _; now exists s | intros _; now destruct s].
  - destruct s as [|b s].
    + split; [discriminate | intros [rest H]; discriminate].
    + simpl. rewrite andb_true_iff, Ascii.eqb_eq, IH. split.
      * intros [-> [rest ->]]. now exists rest.
      * intros [rest H]. injection H as -> ->. split; [reflexivity|].
        now exists rest.
Qed.

(** ** The two scanners *)

Section Scanner.

Variables term sep rel : ascii.

Lemma seg_loop_app (a b : string) (st : seg_state) :
  seg_loop term rel (a ++ b) st = seg_loop term rel b (seg_loop term rel a st).
Proof.
  revert st. induction a as [|c a IH]; intros st; simpl;
    [reflexivity | apply IH].
Qed.

Lemma elt_loop_app (a b : string) (st : elt_state) :
  elt_loop sep rel (a ++ b) st = elt_loop sep rel b (elt_loop sep rel a st).
Proof.
  revert st. induction a as [|c a IH]; intros st; simpl;
    [reflexivity | apply IH].
Qed.

(** A release character met in the normal state and the character after
    it add that character to the buffer and nothing else. *)
Lemma seg_step_release (st : seg_state) (c : ascii) :
  seg_released st = false ->
  seg_step term rel (seg_step term rel st rel) c
  = mkSegState (seg_out st) (JS.push_char (seg_cur st) c) false.
Proof.
  intros H. unfold seg_step at 2. rewrite H, Ascii.eqb_refl.
  reflexivity.
Qed.

Lemma elt_step_release (st : elt_state) (c : ascii) :
  elt_released st = false ->
  elt_step sep rel (elt_step sep rel st rel) c
  = mkEltState (elt_out st) (JS.push_char (elt_cur st) c) false.
Proof.
  intros H. unfold elt_step at 2. rewrite H, Ascii.eqb_refl.
  reflexivity.
Qed.

(** Without an unescaped terminator the segment scan emits nothing and
    its buffer grows by the unescaped text. *)
Lemma seg_loop_no_terminator (text : string) (st : seg_state) :
  unescaped_count term rel (seg_released st) text = 0 ->
  seg_out (seg_loop term rel text st) = seg_out st /\
  seg_cur (seg_loop term rel text st)
  = (seg_cur st ++ unescape rel (seg_released st) text)%string.
Proof.
  revert st. induction text as [|c text IH]; intros st H; simpl.
  - now rewrite append_nil_r.
  - simpl in H. unfold seg_step.
    destruct (seg_released st).
    + destruct (IH (mkSegState (seg_out st) (JS.push_char (seg_cur st) c)
                               false) H) as [Ho Hc].
      simpl in Ho, Hc. now rewrite Ho, Hc, push_char_append.
    + destruct (Ascii.eqb c term) eqn:Et; [discriminate|].
      destruct (Ascii.eqb c rel) eqn:Er.
      * destruct (IH (mkSegState (seg_out st) (seg_cur st) true) H)
          as [Ho Hc].
        simpl in Ho, Hc. now rewrite Ho, Hc.
      * destruct (IH (mkSegState (seg_out st)
                        (JS.push_char (seg_cur st) c) false) H) as [Ho Hc].
        simpl in Ho, Hc. now rewrite Ho, Hc, push_char_append.
Qed.

(** Every unescaped separator closes exactly one token. *)
Lemma elt_loop_count (str : string) (st : elt_state) :
  sep <> rel ->
  length (elt_out (elt_loop sep rel str st))
  = length (elt_out st) + unescaped_count sep rel (elt_released st) str.
Proof.
  intros Hne. revert st.
  induction str as [|c str IH]; intros st; simpl.
  - lia.
  - rewrite IH. unfold elt_step.
    destruct (elt_released st); simpl; [reflexivity|].
    destruct (Ascii.eqb c rel) eqn:Er; simpl.
    + apply Ascii.eqb_eq in Er. subst c.
      destruct (Ascii.eqb rel sep) eqn:Es; [|reflexivity].
      apply Ascii.eqb_eq in Es. congruence.
    + destruct (Ascii.eqb c sep) eqn:Es; simpl; [|reflexivity].
      rewrite length_app. simpl. lia.
Qed.

End Scanner.

(** ** Escaping and empty placeholders *)

(** X21. Escaping, scanner by scanner.  In either scanner, a release
    character met in the normal state makes the character after it
    literal payload, whatever
    that character is (terminator, separator or release character): the
    scan goes on with the same output, the buffer extended by that
    character, in the normal state.  A text without unescaped terminator
    therefore yields at most one segment, whose body is the trimmed text
    with the escaped characters kept and the release characters removed.
    With the default delimiters, [A?'B] is the single segment [A'B], and
    it ends up in one component. *)
Theorem escaped_character_is_literal :
  (forall term rel pre c post,
      let st := seg_loop term rel pre seg_init in
      seg_released st = false ->
      splitSegments (pre ++ String rel (String c post)) term rel
      = seg_finish (seg_loop term rel post
                      (mkSegState (seg_out st)
                                  (JS.push_char (seg_cur st) c) false)))
  /\ (forall sep rel pre c post,
         let st := elt_loop sep rel pre elt_init in
         elt_released st = false ->
         elt_loop sep rel (pre ++ String rel (String c post)) elt_init
         = elt_loop sep rel post
             (mkEltState (elt_out st) (JS.push_char (elt_cur st) c) false))
  /\ (forall term rel text,
         unescaped_count term rel false text = 0 ->
         splitSegments text term rel
         = let body := JS.trim (unescape rel false text) in
           if JS.truthy body then [body] else [])
  /\ splitSegments "A?'B" "'" "?" = ["A'B"]
  /\ segments (parse_document "SEG+A?'B'") = [mkSegment "SEG" 1 [["A'B"]]].
Proof.
  split; [|split; [|split; [|split]]].
  - intros term rel pre c post st H. unfold splitSegments.
    rewrite seg_loop_app. fold st. simpl.
    now rewrite seg_step_release.
  - intros sep rel pre c post st H.
    rewrite elt_loop_app. fold st. simpl.
    now rewrite elt_step_release.
  - intros term rel text H. unfold splitSegments, seg_finish.
    destruct (seg_loop_no_terminator term rel text seg_init H) as [Ho Hc].
    rewrite Ho, Hc. reflexivity.
  - reflexivity.
  - reflexivity.
Qed.

Lemma escaped_character_is_literal_witness :
  splitSegments ("A" ++ String "?" (String "'" "B")) "'" "?"
  = seg_finish (seg_loop "'" "?" "B" (mkSegState [] "A'" false))
  /\ elt_loop "+" "?" ("A" ++ String "?" (String "+" "B")) elt_init
     = elt_loop "+" "?" "B" (mkEltState [] "A+" false)
  /\ splitSegments "A?'B??C" "'" "?" = ["A'B?C"].
Proof.
  split; [|split].
  - apply (proj1 escaped_character_is_literal
             "'"%char "?"%char "A" "'"%char "B").
    reflexivity.
  - apply (proj1 (proj2 escaped_character_is_literal)
             "+"%char "?"%char "A" "+"%char "B").
    reflexivity.
  - apply (proj1 (proj2 (proj2 escaped_character_is_literal))
             "'"%char "?"%char "A?'B??C").
    reflexivity.
Defined.

(** C2, on the code.  The document builder runs the element scan on
    segment bodies from which the segment scan has already removed the
    release characters.  A released terminator stays inside its component
    ([A?'B] is the one component [A'B]); but a released data separator is
    met by the element scan without its release character and splits the
    element, a released component separator splits the component, and a
    released release character is taken by the element scan as a release
    character again and is lost. *)
Theorem released_separator_is_split :
  segments (b_json (baselineParseAndExplain "SEG+A?'B'" None))
  = [mkSegment "SEG" 1 [["A'B"]]]
  /\ splitSegments "SEG+A?+B'" "'" "?" = ["SEG+A+B"]
  /\ segments (b_json (baselineParseAndExplain "SEG+A?+B'" None))
     = [mkSegment "SEG" 1 [["A"]; ["B"]]]
  /\ segments (b_json (baselineParseAndExplain "SEG+A?:B'" None))
     = [mkSegment "SEG" 1 [["A"; "B"]]]
  /\ segments (b_json (baselineParseAndExplain "SEG+A??+B'" None))
     = [mkSegment "SEG" 1 [["A+B"]]].
Proof.
  repeat split; reflexivity.
Qed.

(** C3. Empty placeholders.  For a separator other than the release
    character, splitting a body yields one token more than the body has
    unescaped separators; so no empty token is dropped.  A separator met
    in the normal state at the end of the body leaves an empty last token.
    [A++B] gives the three elements [A], the empty string and [B]. *)
Theorem splitElements_preserves_empty (sep rel : ascii) :
  sep <> rel ->
  (forall body,
      length (splitElements body sep rel)
      = S (unescaped_count sep rel false body))
  /\ (forall body,
         elt_released (elt_loop sep rel body elt_init) = false ->
         splitElements (body ++ String sep "") sep rel
         = splitElements body sep rel ++ [""])
  /\ splitElements "A++B" "+" "?" = ["A"; ""; "B"]
  /\ splitElements "" sep rel = [""].
Proof.
  intros Hne. split; [|split; [|split]].
  - intros body. unfold splitElements.
    rewrite length_app, elt_loop_count by assumption. simpl. lia.
  - intros body H. unfold splitElements.
    rewrite elt_loop_app. simpl. unfold elt_step. rewrite H.
    destruct (Ascii.eqb sep rel) eqn:E.
    + apply Ascii.eqb_eq in E. contradiction.
    + rewrite Ascii.eqb_refl. reflexivity.
  - reflexivity.
  - reflexivity.
Qed.

Lemma splitElements_preserves_empty_witness :
  length (splitElements "A++B?+C+" "+" "?") = 4
  /\ splitElements ("A+B" ++ "+") "+" "?" = splitElements "A+B" "+" "?" ++ [""].
Proof.
  assert (Hne : "+"%char <> "?"%char) by (intros H; discriminate H).
  split.
  - exact (proj1 (splitElements_preserves_empty "+" "?" Hne) "A++B?+C+").
  - apply (proj1 (proj2 (splitElements_preserves_empty "+" "?" Hne)) "A+B").
    reflexivity.
Defined.

(** ** Delimiter resolution *)

Lemma slice_to_length (n : nat) (s : string) :
  String.length (JS.slice_to n s) = Nat.min n (String.length s).
Proof.
  revert s. induction n as [|n IH]; intros [|c s]; simpl; auto.
Qed.

Lemma detect_advice (c0 c1 c2 c3 c4 c5 : ascii) (rest : string) :
  detectDelimiters (advice_text c0 c1 c2 c3 c4 c5 rest) = mkDelims c0 c1 c3 c5.
Proof. reflexivity. Qed.

Lemma detect_no_advice (text : string) :
  no_advice text -> detectDelimiters text = default_delimiters.
Proof.
  intros H. unfold detectDelimiters.
  destruct (JS.startsWith text "UNA") eqn:E; [|reflexivity].
  apply startsWith_spec in E. destruct H as [H | H]; [contradiction|].
  destruct E as [rest ->].
  assert (L : String.length (JS.slice 3 9 ("UNA" ++ rest)) <> 6).
  { change (JS.slice 3 9 ("UNA" ++ rest)) with (JS.slice_to 6 rest).
    rewrite slice_to_length. simpl in H. lia. }
  apply Nat.eqb_neq in L. now rewrite L.
Qed.

Lemma advice_or_not (text : string) :
  no_advice text \/
  exists c0 c1 c2 c3 c4 c5 rest, text = advice_text c0 c1 c2 c3 c4 c5 rest.
Proof.
  destruct (JS.startsWith text "UNA") eqn:E.
  - apply startsWith_spec in E. destruct E as [rest ->].
    destruct rest as [|c0 [|c1 [|c2 [|c3 [|c4 [|c5 rest]]]]]];
      try (left; right; simpl; lia).
    right. now exists c0, c1, c2, c3, c4, c5, rest.
  - left; left. intros H. apply startsWith_spec in H. congruence.
Qed.

(** C7. Delimiter resolution.  A text that starts with [UNA] and has six
    more characters gives the delimiter set made of the characters at
    positions 0, 1, 3 and 5 of those six; every other text gives the
    defaults; the resolver is defined on every text, and each text is in
    one of the two cases. *)
Theorem detectDelimiters_resolution :
  (forall c0 c1 c2 c3 c4 c5 rest,
      detectDelimsFromText (advice_text c0 c1 c2 c3 c4 c5 rest)
      = mkDelims c0 c1 c3 c5
      /\ detectDelimiters (advice_text c0 c1 c2 c3 c4 c5 rest)
         = mkDelims c0 c1 c3 c5)
  /\ (forall text,
         no_advice text ->
         detectDelimsFromText text = mkDelims ":" "+" "?" "'"
         /\ detectDelimiters text = mkDelims ":" "+" "?" "'")
  /\ (forall text,
         no_advice text \/
         exists c0 c1 c2 c3 c4 c5 rest,
           text = advice_text c0 c1 c2 c3 c4 c5 rest).
Proof.
  split; [|split].
  - intros. split; apply detect_advice.
  - intros text H. split; apply (detect_no_advice text H).
  - apply advice_or_not.
Qed.

Lemma detectDelimiters_resolution_witness :
  detectDelimsFromText "UNA;*" = mkDelims ":" "+" "?" "'"
  /\ detectDelimiters "UNA;*" = mkDelims ":" "+" "?" "'".
Proof.
  apply (proj1 (proj2 detectDelimiters_resolution) "UNA;*").
  right. simpl. lia.
Defined.

(** C9, as the code has it.  The default set is four pairwise distinct
    characters, and so is the result for every text without a complete
    advice.  For a text with one, the set is pairwise distinct exactly
    when the characters at positions 0, 1, 3 and 5 of the advice are: the
    resolver copies them unchecked.  The parse result carries the resolved
    set. *)
Theorem delimiters_distinct_iff :
  distinct_delimiters default_delimiters
  /\ (forall text, no_advice text ->
                   distinct_delimiters (detectDelimsFromText text))
  /\ (forall c0 c1 c2 c3 c4 c5 rest,
         distinct_delimiters
           (detectDelimsFromText (advice_text c0 c1 c2 c3 c4 c5 rest))
         <-> (c0 <> c1 /\ c0 <> c3 /\ c0 <> c5 /\
              c1 <> c3 /\ c1 <> c5 /\ c3 <> c5))
  /\ (forall text fmt,
         delimiters (b_json (baselineParseAndExplain text fmt))
         = detectDelimsFromText text).
Proof.
  assert (D : distinct_delimiters default_delimiters).
  { unfold distinct_delimiters; simpl. repeat split; discriminate. }
  split; [exact D | split; [|split]].
  - intros text H. unfold detectDelimsFromText.
    now rewrite (detect_no_advice text H).
  - intros. unfold detectDelimsFromText. rewrite detect_advice.
    unfold distinct_delimiters; simpl. reflexivity.
  - reflexivity.
Qed.

Lemma delimiters_distinct_iff_witness :
  distinct_delimiters (detectDelimsFromText "UNH+1'").
Proof.
  apply (proj1 (proj2 delimiters_distinct_iff) "UNH+1'").
  left. intros [rest H]. discriminate H.
Defined.

(** C9, as stated, fails: an advice that repeats a character gives a
    delimiter set that is not pairwise distinct. *)
Lemma delimiters_not_always_distinct :
  ~ distinct_delimiters
      (delimiters (b_json (baselineParseAndExplain "UNA++.+ +UNH+1+X" None))).
Proof.
  intros [H _]. apply H. reflexivity.
Qed.

(** ** The service string advice as a segment *)

Lemma seg_loop_out_prefix (term rel : ascii) (pre : list string)
  (text : string) (out : list string) (cur : string) (r : bool) :
  seg_loop term rel text (mkSegState (pre ++ out) cur r)
  = let st := seg_loop term rel text (mkSegState out cur r) in
    mkSegState (pre ++ seg_out st) (seg_cur st) (seg_released st).
Proof.
  revert out cur r. induction text as [|c text IH]; intros out cur r.
  - reflexivity.
  - simpl. unfold seg_step; simpl.
    destruct r; [apply IH|].
    destruct (Ascii.eqb c rel); [apply IH|].
    destruct (Ascii.eqb c term); [|apply IH].
    destruct (JS.truthy (JS.trim cur)); [|apply IH].
    rewrite <- app_assoc. apply IH.
Qed.

Lemma splitSegments_after_advice (rest : string) :
  splitSegments (standard_advice ++ rest) "'" "?"
  = "UNA:+." :: splitSegments rest "'" "?".
Proof.
  unfold splitSegments. rewrite seg_loop_app.
  change (seg_loop "'" "?" standard_advice seg_init)
    with (mkSegState (["UNA:+."] ++ []) "" false).
  rewrite seg_loop_out_prefix. fold seg_init. cbv zeta.
  unfold seg_finish; simpl.
  now destruct (JS.truthy (JS.trim (seg_cur (seg_loop "'" "?" rest seg_init)))).
Qed.

Lemma build_segments_shift (d : DelimiterSet) (raws : list string) (pos : nat) :
  build_segments d (S pos) raws = map shift_position (build_segments d pos raws).
Proof.
  revert pos. induction raws as [|raw raws IH]; intros pos; simpl.
  - reflexivity.
  - now rewrite IH.
Qed.

Lemma parse_document_after_advice (rest : string) :
  segments (parse_document (standard_advice ++ rest))
  = mkSegment "UNA" 1 [[""; ""]; ["."]]
    :: map shift_position
         (build_segments default_delimiters 0
            (segmentsRaw rest default_delimiters)).
Proof.
  unfold parse_document.
  change (detectDelimiters (standard_advice ++ rest)) with default_delimiters.
  cbv zeta. unfold segments, segmentsRaw.
  change (segTerm default_delimiters) with "'"%char.
  change (releaseChar default_delimiters) with "?"%char.
  rewrite splitSegments_after_advice.
  change (map ?f ("UNA:+." :: ?l)) with (f "UNA:+." :: map f l).
  cbv beta.
  change (JS.trim (JS.strip_newlines "UNA:+.")) with "UNA:+.".
  change (filter JS.truthy ("UNA:+." :: ?l)) with ("UNA:+." :: filter JS.truthy l).
  simpl build_segments at 1.
  now rewrite build_segments_shift.
Qed.

(** C10. The advice is tokenized like any segment.  A text that begins
    with the standard advice [UNA:+.? '] parses to a document whose first
    segment has tag [UNA] and position 1, its elements being what the
    escape scan leaves of the advice; the segments after it are those of
    the rest of the text under the same delimiters, each position one
    higher.  When the rest alone resolves to the default delimiters (it
    does not open with an advice declaring others), these are the segments
    of the parse of the rest. *)
Theorem advice_is_first_segment (rest : string) (fmt : option string) :
  segments (b_json (baselineParseAndExplain (standard_advice ++ rest) fmt))
  = mkSegment "UNA" 1 [[""; ""]; ["."]]
    :: map shift_position
         (build_segments default_delimiters 0
            (segmentsRaw rest default_delimiters))
  /\ (detectDelimsFromText rest = default_delimiters ->
      segments (b_json (baselineParseAndExplain (standard_advice ++ rest) fmt))
      = mkSegment "UNA" 1 [[""; ""]; ["."]]
        :: map shift_position
             (segments (b_json (baselineParseAndExplain rest fmt)))).
Proof.
  split.
  - apply parse_document_after_advice.
  - intros H.
    change (segments (b_json (baselineParseAndExplain
                                (standard_advice ++ rest) fmt)))
      with (segments (parse_document (standard_advice ++ rest))).
    rewrite parse_document_after_advice.
    change (segments (b_json (baselineParseAndExplain rest fmt)))
      with (segments (parse_document rest)).
    unfold parse_document. unfold detectDelimsFromText in H.
    now rewrite H.
Qed.

Lemma advice_is_first_segment_witness :
  segments (b_json (baselineParseAndExplain
                      (standard_advice ++ "UNH+1+APERAK'BGM+312'") None))
  = [ mkSegment "UNA" 1 [[""; ""]; ["."]];
      mkSegment "UNH" 2 [["1"]; ["APERAK"]];
      mkSegment "BGM" 3 [["312"]] ].
Proof.
  apply (proj2 (advice_is_first_segment "UNH+1+APERAK'BGM+312'" None)).
  reflexivity.
Defined.

(** ** The generated modules *)

Lemma glitch_nonempty (s : string) : s <> "" -> glitch s <> "".
Proof.
  intros Hs. unfold glitch.
  destruct s as [|c s]; [congruence|].
  assert (H : exists c' s', replace_plus_plus 0 (String c s) = String c' s').
  { cbn [replace_plus_plus].
    destruct (JS.startsWith (String c s) "++"); simpl; eauto. }
  destruct H as [c' [s' ->]].
  cbn [replace_line_UNH andb].
  destruct (JS.startsWith (String c' s') "UNH"); simpl; discriminate.
Qed.

(** What the template literals make of the three places. *)
Lemma emitted_places :
  cook false template_line_19 = "  let segTerm = ''';"
  /\ cook false template_regex_77
     = String "/" (String JS.CR (String "?" (String JS.LF "/g")))
  /\ cook false template_regex_263
     = String "/" (String JS.CR (String "?" (String JS.LF "/"))).
Proof.
  repeat split; reflexivity.
Qed.

Lemma import_baseline_throws (exports : LoadedModule) :
  exists msg, import_baseline exports = Throw msg /\ msg <> "EMPTY_INPUT".
Proof.
  exists "Invalid or unexpected token". split; [reflexivity|].
  intros H; discriminate H.
Qed.

Lemma import_mock_throws (exports : LoadedModule) :
  exists msg, import_mock exports = Throw msg.
Proof.
  now exists "Invalid regular expression: missing /".
Qed.

Lemma tester_fails_at_import (exports : LoadedModule) (samples : list Sample) :
  exists msg,
    test_edifact_parser_module (import_baseline exports) samples
    = ToolFailure ("Module import failed: " ++ msg).
Proof.
  destruct (import_baseline_throws exports) as [msg [H _]].
  exists msg. now rewrite H.
Qed.

Lemma explain_one_fails_at_import (exports : LoadedModule) (text : string) :
  exists msg,
    explain_one (import_baseline exports) text = Throw msg
    /\ msg <> "EMPTY_INPUT".
Proof.
  destruct (import_baseline_throws exports) as [msg [H N]].
  exists msg. now rewrite H.
Qed.

(** C1, on the code.  The sample tokenizes into the five segments UNB,
    UNH, BGM, UNT, UNZ at positions 1 to 5.  Its text is one line, so the
    mutation, which rewrites UNH at line starts, leaves it unchanged; on
    the sample written one segment per line it does turn UNH into UXH.
    But the tester never reaches a sample: the text emitted for the
    baseline module, and likewise for the mock module, is not a module,
    the import throws, and the tool returns a failure without any result,
    whatever the samples are. *)
Theorem conformance_scenario_on_emitted_module :
  map (fun s => (tag s, position s)) (segments (parse_document sample_text))
  = [ ("UNB", 1); ("UNH", 2); ("BGM", 3); ("UNT", 4); ("UNZ", 5) ]
  /\ glitch sample_text = sample_text
  /\ map tag (segments (parse_document (glitch sample_lines)))
     = [ "UNB"; "UXH"; "BGM"; "UNT"; "UNZ" ]
  /\ (forall exports samples,
         exists msg,
           test_edifact_parser_module (import_baseline exports) samples
           = ToolFailure ("Module import failed: " ++ msg))
  /\ (forall exports samples,
         exists msg,
           test_edifact_parser_module (import_mock exports) samples
           = ToolFailure ("Module import failed: " ++ msg)).
Proof.
  split; [vm_compute; reflexivity|].
  split; [vm_compute; reflexivity|].
  split; [vm_compute; reflexivity|].
  split.
  - apply tester_fails_at_import.
  - intros exports samples.
    destruct (import_mock_throws exports) as [msg H].
    exists msg. now rewrite H.
Qed.

(** C4, on the code.  No header mismatch is ever reported.  The check
    for it is in the text of the baseline module, which does not load: a
    tester run on it fails at the import.  The parser that runs, the
    fallback parser, reports no error for a message of type INVOIC
    handed in as APERAK; it reads the type from the first component of
    the second element and returns it as the format. *)
Theorem header_mismatch_is_never_reported :
  (forall exports name,
      exists msg,
        test_edifact_parser_module (import_baseline exports)
                                   [mkSample name mismatch_text]
        = ToolFailure ("Module import failed: " ++ msg))
  /\ b_errors (baselineParseAndExplain mismatch_text (Some "APERAK")) = []
  /\ option_map (fun u => first_component u 1)
                (find_tag "UNH"
                   (segments (b_json (baselineParseAndExplain
                                        mismatch_text (Some "APERAK")))))
     = Some (Some "INVOIC")
  /\ b_format (baselineParseAndExplain mismatch_text (Some "APERAK"))
     = Some "INVOIC".
Proof.
  split; [|repeat split; reflexivity].
  intros exports name. apply tester_fails_at_import.
Qed.

(** C5, on the code.  No trailer is ever checked.  The check of the UNT
    count is in the text of the baseline module, which does not load; the
    fallback parser reports no error for any text, be the count of the
    trailer missing or not a number. *)
Theorem trailer_count_is_never_checked :
  (forall exports name,
      exists msg,
        test_edifact_parser_module (import_baseline exports)
                                   [mkSample name "UNT+4+REF'"]
        = ToolFailure ("Module import failed: " ++ msg))
  /\ (forall text assumedFormat,
         b_errors (baselineParseAndExplain text assumedFormat) = [])
  /\ map (fun s => (tag s, elements s))
         (segments (b_json (baselineParseAndExplain
                              "UNH+1+APERAK'UNT'UNT+four+1'" None)))
     = [ ("UNH", [["1"]; ["APERAK"]]); ("UNT", [[""]]);
         ("UNT", [["four"]; ["1"]]) ]
  /\ b_errors (baselineParseAndExplain "UNH+1+APERAK'UNT'UNT+four+1'" None)
     = [].
Proof.
  split; [|repeat split; reflexivity].
  intros exports name. apply tester_fails_at_import.
Qed.

(** C6, on the code.  The codes of a mapping are never consulted.  The
    explainer that reads them is in the text of the baseline module,
    which does not load: a run of [explain-one] on it ends at the import.
    The explainer that runs knows the built-in tables only: it appends
    their meaning for 137 and ON, and nothing for a qualifier they do not
    hold. *)
Theorem mapping_codes_are_never_consulted :
  (forall exports text,
      exists msg, explain_one (import_baseline exports) text = Throw msg)
  /\ field_descriptions
       (baselineExplanations "DTM+137:202501011200:203'RFF+ON:4711'")
     = [ [ Some "137=Doc date/time, 171=Reference date/time (qualifier 137: Document/message date/time)";
           Some "Value per 2379";
           Some "203=CCYYMMDDHHMM, 303=YYMMDDHHMM" ];
         [ Some "ON=Order, TN=Transaction, ACE=Account (qualifier ON: Order number)";
           Some "Reference identifier" ] ]
  /\ field_descriptions
       (baselineExplanations "DTM+492:202501:610'RFF+Z13:55001'")
     = [ [ Some "137=Doc date/time, 171=Reference date/time";
           Some "Value per 2379";
           Some "203=CCYYMMDDHHMM, 303=YYMMDDHHMM" ];
         [ Some "ON=Order, TN=Transaction, ACE=Account";
           Some "Reference identifier" ] ].
Proof.
  split; [|split; vm_compute; reflexivity].
  intros exports text.
  destruct (explain_one_fails_at_import exports text) as [msg [H _]].
  now exists msg.
Qed.

(** C8, on the code.  [parseEdifactToJson] is never called: it is a
    function of the text of the baseline module, which does not load.
    Whatever the text handed in, empty or not, a run that imports the
    module and calls the function ends with the error of the import,
    which is not [EMPTY_INPUT], and returns no document; the tester
    likewise fails before its first sample. *)
Theorem emitted_parser_is_never_called :
  (forall exports text,
      exists msg,
        explain_one (import_baseline exports) text = Throw msg
        /\ msg <> "EMPTY_INPUT")
  /\ (forall exports text doc,
         explain_one (import_baseline exports) text <> Return doc)
  /\ (forall exports name text,
         exists msg,
           test_edifact_parser_module (import_baseline exports)
                                      [mkSample name text]
           = ToolFailure ("Module import failed: " ++ msg)).
Proof.
  split; [|split].
  - apply explain_one_fails_at_import.
  - intros exports text doc H.
    destruct (explain_one_fails_at_import exports text) as [msg [E _]].
    rewrite E in H. discriminate H.
  - intros exports name text. apply tester_fails_at_import.
Qed.

(** The inherited names answer like qualifiers: a DTM segment whose
    qualifier is [constructor] gets the text of the inherited function
    appended. *)
Remark inherited_name_as_qualifier :
  field_descriptions (baselineExplanations "DTM+constructor:1'")
  = [ [ Some "137=Doc date/time, 171=Reference date/time (qualifier constructor: function Object() { [native code] })";
        Some "Value per 2379" ] ].
Proof.
  vm_compute. reflexivity.
Qed.

(** * Further properties of the tokenizer *)

Lemma trimEnd_idempotent (s : string) : JS.trimEnd (JS.trimEnd s) = JS.trimEnd s.
Proof.
  induction s as [|c s IH]; simpl; [reflexivity|].
  destruct (JS.trimEnd s) as [|d r] eqn:E.
  - destruct (JS.is_white_space c) eqn:W; simpl; [reflexivity|].
    now rewrite W.
  - simpl. simpl in IH. now rewrite IH.
Qed.

Lemma trimStart_head (s : string) :
  JS.trimStart s = EmptyString \/
  exists c t, JS.trimStart s = String c t /\ JS.is_white_space c = false.
Proof.
  induction s as [|c s IH]; simpl; [now left|].
  destruct (JS.is_white_space c) eqn:W; [exact IH|].
  right. now exists c, s.
Qed.

Lemma trimEnd_head (c : ascii) (t : string) :
  JS.is_white_space c = false ->
  exists r, JS.trimEnd (String c t) = String c r.
Proof.
  intros W. simpl. destruct (JS.trimEnd t) as [|d r].
  - rewrite W. now exists EmptyString.
  - now exists (String d r).
Qed.

Lemma trim_idempotent (s : string) : JS.trim (JS.trim s) = JS.trim s.
Proof.
  unfold JS.trim.
  destruct (trimStart_head s) as [-> | [c [t [-> W]]]]; [reflexivity|].
  destruct (trimEnd_head c t W) as [r E].
  rewrite E. simpl JS.trimStart. rewrite W, <- E.
  apply trimEnd_idempotent.
Qed.

Lemma seg_loop_trimmed (term rel : ascii) (text : string) (st : seg_state) :
  Forall is_trimmed (seg_out st) ->
  Forall is_trimmed (seg_out (seg_loop term rel text st)).
Proof.
  revert st. induction text as [|c text IH]; intros st H; simpl; [exact H|].
  apply IH. unfold seg_step.
  destruct (seg_released st); [exact H|].
  destruct (Ascii.eqb c rel); [exact H|].
  destruct (Ascii.eqb c term); [|exact H].
  simpl. destruct (JS.truthy (JS.trim (seg_cur st))) eqn:T; [|exact H].
  apply Forall_app. split; [exact H|].
  constructor; [|constructor]. split; [exact T | apply trim_idempotent].
Qed.

(** X1. Every segment the segment scanner emits is non-empty and has no
    white space at either end; so has every raw segment the document
    builder works on. *)
Theorem segments_are_trimmed :
  (forall text term rel, Forall is_trimmed (splitSegments text term rel))
  /\ (forall text d, Forall is_trimmed (segmentsRaw text d)).
Proof.
  split.
  - intros text term rel. unfold splitSegments, seg_finish.
    assert (H : Forall is_trimmed (seg_out (seg_loop term rel text seg_init)))
      by (apply seg_loop_trimmed; constructor).
    destruct (JS.truthy (JS.trim (seg_cur (seg_loop term rel text seg_init))))
      eqn:T; [|exact H].
    apply Forall_app. split; [exact H|].
    constructor; [|constructor]. split; [exact T | apply trim_idempotent].
  - intros text d. unfold segmentsRaw.
    apply Forall_forall. intros s Hs.
    apply filter_In in Hs. destruct Hs as [Hin T].
    apply in_map_iff in Hin. destruct Hin as [r [<- _]].
    split; [exact T | apply trim_idempotent].
Qed.

Lemma seg_loop_count (term rel : ascii) (text : string) (st : seg_state) :
  term <> rel ->
  length (seg_out (seg_loop term rel text st))
  <= length (seg_out st) + unescaped_count term rel (seg_released st) text.
Proof.
  intros Hne. revert st.
  induction text as [|c text IH]; intros st; simpl; [lia|].
  etransitivity; [apply IH|]. unfold seg_step.
  destruct (seg_released st); simpl; [lia|].
  destruct (Ascii.eqb c rel) eqn:Er; simpl.
  - apply Ascii.eqb_eq in Er. subst c.
    destruct (Ascii.eqb rel term) eqn:Et; [|lia].
    apply Ascii.eqb_eq in Et. congruence.
  - destruct (Ascii.eqb c term); simpl; [|lia].
    destruct (JS.truthy (JS.trim (seg_cur st))); [|lia].
    rewrite length_app. simpl. lia.
Qed.

Lemma build_segments_length (d : DelimiterSet) (pos : nat) (raws : list string) :
  length (build_segments d pos raws) = length raws.
Proof.
  revert pos. induction raws as [|r raws IH]; intros pos; simpl;
    [reflexivity | now rewrite IH].
Qed.

(** X2. A text yields at most one segment per unescaped terminator, and
    one more for an unterminated rest; the document has no more segments
    than that. *)
Theorem segment_count_bound :
  (forall text term rel,
      term <> rel ->
      length (splitSegments text term rel)
      <= S (unescaped_count term rel false text))
  /\ (forall text,
         let d := detectDelimiters text in
         segTerm d <> releaseChar d ->
         length (segments (parse_document text))
         <= S (unescaped_count (segTerm d) (releaseChar d) false text)).
Proof.
  assert (A : forall text term rel,
             term <> rel ->
             length (splitSegments text term rel)
             <= S (unescaped_count term rel false text)).
  { intros text term rel Hne. unfold splitSegments, seg_finish.
    pose proof (seg_loop_count term rel text seg_init Hne) as H.
    simpl in H.
    destruct (JS.truthy _); [rewrite length_app; simpl|]; lia. }
  split; [exact A|].
  intros text d Hne. unfold parse_document. fold d. simpl.
  rewrite build_segments_length. unfold segmentsRaw.
  etransitivity; [apply filter_length_le|].
  rewrite length_map. now apply A.
Qed.

Lemma segment_count_bound_witness :
  length (splitSegments "A'B?'C' " "'" "?") <= 3
  /\ length (segments (parse_document "A'B?'C' ")) <= 3.
Proof.
  split.
  - apply (proj1 segment_count_bound "A'B?'C' " "'"%char "?"%char).
    intros H; discriminate H.
  - apply (proj2 segment_count_bound "A'B?'C' ").
    intros H; discriminate H.
Defined.

Lemma join_snoc (sep : string) (l : list string) (a b : string) :
  join sep ((l ++ [a]) ++ [b]) = (join sep (l ++ [a]) ++ sep ++ b)%string.
Proof.
  induction l as [|x l IH].
  - reflexivity.
  - change (join sep (((x :: l) ++ [a]) ++ [b]))
      with (join sep (x :: ((l ++ [a]) ++ [b]))).
    change (join sep ((x :: l) ++ [a])) with (join sep (x :: (l ++ [a]))).
    destruct l as [|y l]; simpl in *.
    + now rewrite !append_assoc.
    + rewrite IH. now rewrite !append_assoc.
Qed.

Lemma join_last_append (sep : string) (l : list string) (a b : string) :
  join sep (l ++ [(a ++ b)%string]) = (join sep (l ++ [a]) ++ b)%string.
Proof.
  induction l as [|x l IH].
  - reflexivity.
  - destruct l as [|y l]; simpl in *.
    + now rewrite !append_assoc.
    + rewrite IH. now rewrite !append_assoc.
Qed.

Lemma elt_loop_join (sep rel : ascii) (str : string) (st : elt_state) :
  let st' := elt_loop sep rel str st in
  join (String sep "") (elt_out st' ++ [elt_cur st'])
  = (join (String sep "") (elt_out st ++ [elt_cur st])
       ++ unescape rel (elt_released st) str)%string.
Proof.
  revert st. induction str as [|c str IH]; intros st; simpl.
  - now rewrite append_nil_r.
  - rewrite IH. unfold elt_step.
    destruct (elt_released st); simpl.
    + unfold JS.push_char. now rewrite join_last_append, append_assoc.
    + destruct (Ascii.eqb c rel); simpl; [reflexivity|].
      destruct (Ascii.eqb c sep) eqn:Es; simpl.
      * apply Ascii.eqb_eq in Es. subst c.
        now rewrite join_snoc, append_assoc.
      * unfold JS.push_char. now rewrite join_last_append, append_assoc.
Qed.

Lemma unescape_no_release (rel : ascii) (s : string) :
  absent rel s -> unescape rel false s = s.
Proof.
  induction s as [|c s IH]; simpl; [reflexivity|].
  intros [Hc Hs]. apply Ascii.eqb_neq in Hc. rewrite Hc.
  now rewrite IH.
Qed.

(** X3. Joining the tokens of [splitElements] with the separator gives
    the text with its active release characters removed; for a text
    without release character it gives the text back. *)
Theorem splitElements_join :
  (forall str sep rel,
      join (String sep "") (splitElements str sep rel)
      = unescape rel false str)
  /\ (forall str sep rel,
         absent rel str ->
         join (String sep "") (splitElements str sep rel) = str).
Proof.
  assert (A : forall str sep rel,
             join (String sep "") (splitElements str sep rel)
             = unescape rel false str).
  { intros str sep rel. unfold splitElements.
    exact (elt_loop_join sep rel str elt_init). }
  split; [exact A|].
  intros str sep rel H. rewrite A. now apply unescape_no_release.
Qed.

Lemma splitElements_join_witness :
  join "+" (splitElements "A++B:C+" "+" "?") = "A++B:C+".
Proof.
  apply (proj2 splitElements_join "A++B:C+" "+"%char "?"%char).
  simpl. repeat split; intros H; discriminate H.
Defined.

(** * Further properties of documents *)

Lemma build_segments_positions (d : DelimiterSet) (pos : nat)
  (raws : list string) :
  map position (build_segments d pos raws) = seq (S pos) (length raws).
Proof.
  revert pos. induction raws as [|r raws IH]; intros pos; simpl;
    [reflexivity | now rewrite IH].
Qed.

(** X4. The positions of the segments of a document are 1, 2, ..., n in
    this order, n being the number of raw segments of the text. *)
Theorem positions_are_consecutive (text : string) :
  map position (segments (parse_document text))
  = seq 1 (length (segmentsRaw text (detectDelimiters text))).
Proof.
  unfold parse_document. simpl. apply build_segments_positions.
Qed.

Lemma upper_char_idempotent (c : ascii) :
  JS.upper_char (JS.upper_char c) = JS.upper_char c.
Proof.
  destruct c as [[] [] [] [] [] [] [] []]; reflexivity.
Qed.

Lemma toUpperCase_idempotent (s : string) :
  JS.toUpperCase (JS.toUpperCase s) = JS.toUpperCase s.
Proof.
  induction s as [|c s IH]; simpl; [reflexivity|].
  now rewrite upper_char_idempotent, IH.
Qed.

Lemma toUpperCase_length (s : string) :
  String.length (JS.toUpperCase s) = String.length s.
Proof.
  induction s as [|c s IH]; simpl; [reflexivity | now rewrite IH].
Qed.

Lemma splitElements_nonempty (str : string) (sep rel : ascii) :
  splitElements str sep rel <> [].
Proof.
  unfold splitElements. intros H. apply app_eq_nil in H.
  destruct H as [_ H]. discriminate H.
Qed.

Lemma build_segment_well_shaped (d : DelimiterSet) (pos : nat) (raw : string) :
  JS.truthy raw = true -> well_shaped (build_segment d pos raw).
Proof.
  intros T. unfold well_shaped, build_segment. simpl.
  split; [|split; [|split]].
  - rewrite toUpperCase_length. unfold JS.slice. simpl JS.slice_from.
    rewrite slice_to_length. destruct raw as [|c raw]; [discriminate T|].
    simpl String.length. lia.
  - apply toUpperCase_idempotent.
  - intros H. apply map_eq_nil in H. now apply splitElements_nonempty in H.
  - apply Forall_forall. intros e He. apply in_map_iff in He.
    destruct He as [x [<- _]]. apply splitElements_nonempty.
Qed.

Lemma build_segment_has_content (d : DelimiterSet) (pos : nat) (raw : string) :
  JS.truthy raw = true -> has_content (build_segment d pos raw).
Proof.
  intros T. unfold has_content, build_segment. simpl.
  split; [|split].
  - destruct raw as [|c raw]; [discriminate T|]. intros H; discriminate H.
  - intros H. apply map_eq_nil in H. now apply splitElements_nonempty in H.
  - apply Forall_forall. intros e He. apply in_map_iff in He.
    destruct He as [x [<- _]]. apply splitElements_nonempty.
Qed.

Lemma build_segments_shaped (P : RawSegment -> Prop) (d : DelimiterSet) :
  (forall pos raw, JS.truthy raw = true -> P (build_segment d pos raw)) ->
  forall pos raws,
    Forall (fun r => JS.truthy r = true) raws ->
    Forall P (build_segments d pos raws).
Proof.
  intros HP pos raws. revert pos.
  induction raws as [|r raws IH]; intros pos H; simpl; [constructor|].
  inversion H as [|? ? Hr Hrs]; subst.
  constructor; [now apply HP | now apply IH].
Qed.

(** X5. Every segment of a document has a tag that is not empty, at least
    one element, and at least one component in every element.  For a text
    of code units below 128 the tag has at most three characters and is
    its own upper-case form. *)
Theorem segments_are_well_shaped (text : string) :
  Forall has_content (segments (parse_document text))
  /\ (is_ascii_text text ->
      Forall well_shaped (segments (parse_document text))).
Proof.
  assert (R : Forall (fun r => JS.truthy r = true)
                     (segmentsRaw text (detectDelimiters text))).
  { apply Forall_forall. intros r Hr. unfold segmentsRaw in Hr.
    apply filter_In in Hr. tauto. }
  unfold parse_document. cbn [segments]. split.
  - apply build_segments_shaped; [|exact R].
    intros pos raw. apply build_segment_has_content.
  - intros _. apply build_segments_shaped; [|exact R].
    intros pos raw. apply build_segment_well_shaped.
Qed.

Lemma segments_are_well_shaped_witness :
  Forall well_shaped (segments (parse_document "unh+1'BGM+312'")).
Proof.
  apply (proj2 (segments_are_well_shaped "unh+1'BGM+312'")).
  cbn [is_ascii_text]. repeat split; apply Nat.ltb_lt; reflexivity.
Defined.

(** * Further properties of the tester *)

Lemma run_sample_ok (m : ParserModule) (s : Sample) :
  ok (run_sample m s) = true <-> passes m s.
Proof.
  unfold run_sample, passes.
  destruct (mod_parseEdifactToJson m (JS.Str (text s))) as [p|msg] eqn:P.
  - destruct (mod_explain m p) as [e|msg] eqn:E; simpl.
    + split; [intros _; now exists p, e | reflexivity].
    + split; [discriminate|].
      intros [p' [e' [Hp He]]]. injection Hp as <-. congruence.
  - simpl. split; [discriminate|]. intros [p' [e' [Hp _]]]. discriminate Hp.
Qed.

Lemma run_mutated_ok (m : ParserModule) (s : Sample) :
  ok (run_mutated m s) = true <-> detects m s.
Proof.
  unfold run_mutated, detects.
  destruct (mod_parseEdifactToJson m (JS.Str (glitch (text s)))) as [res|msg].
  - destruct (existsb (fun e => code_detected (code e)) (errors res)) eqn:E;
      simpl.
    + split; [intros _; now apply existsb_exists in E | reflexivity].
    + split; [discriminate|]. intros H. apply existsb_exists in H. congruence.
  - simpl. tauto.
Qed.

(** X7. The tester reports success exactly when every sample goes
    through parsing and explaining unchanged and, for each of the first
    two samples, the mutated text makes the parser throw or report one of
    the detection codes. *)
Theorem tester_success_iff (m : ParserModule) (samples : list Sample) :
  success (edifactTester m samples) = true
  <-> (forall s, In s samples -> passes m s)
      /\ (forall s, In s (firstn 2 samples) -> detects m s).
Proof.
  unfold edifactTester. simpl. rewrite forallb_app, andb_true_iff.
  rewrite !forallb_forall. split.
  - intros [H1 H2]. split; intros s Hs.
    + apply run_sample_ok. apply H1. now apply in_map.
    + apply run_mutated_ok. apply H2. now apply in_map.
  - intros [H1 H2]. split; intros r Hr; apply in_map_iff in Hr;
      destruct Hr as [s [<- Hs]].
    + apply run_sample_ok. now apply H1.
    + apply run_mutated_ok. now apply H2.
Qed.

Lemma startsWith_nil (s : string) : JS.startsWith s "" = true.
Proof. now destruct s. Qed.

Lemma replace_plus_plus_match (t : string) :
  replace_plus_plus 0 (String "+" (String "+" t))
  = ("+?+" ++ replace_plus_plus 0 t)%string.
Proof.
  cbn [replace_plus_plus]. simpl JS.startsWith. now rewrite startsWith_nil.
Qed.

Lemma replace_plus_plus_other (c : ascii) (tl : string) :
  JS.startsWith (String c tl) "++" = false ->
  replace_plus_plus 0 (String c tl) = String c (replace_plus_plus 0 tl).
Proof.
  intros H. cbn [replace_plus_plus]. now rewrite H.
Qed.

Lemma seg_loop_replace_plus_plus (n : nat) (s : string) (st : seg_state) :
  String.length s <= n ->
  seg_loop "'" "?" (replace_plus_plus 0 s) st = seg_loop "'" "?" s st.
Proof.
  revert s st. induction n as [|n IH]; intros s st L.
  - destruct s; [reflexivity | simpl in L; lia].
  - destruct s as [|c tl]; [reflexivity|].
    destruct (JS.startsWith (String c tl) "++") eqn:E.
    + apply startsWith_spec in E. destruct E as [rest E].
      simpl in E. injection E as -> ->.
      rewrite replace_plus_plus_match, seg_loop_app.
      change (String "+" (String "+" rest)) with ("++" ++ rest)%string.
      rewrite seg_loop_app.
      assert (S2 : seg_loop "'" "?" "+?+" st = seg_loop "'" "?" "++" st)
        by (destruct st as [o c [|]]; reflexivity).
      rewrite S2. apply IH. simpl in L. lia.
    + rewrite replace_plus_plus_other by assumption.
      simpl. apply IH. simpl in L. lia.
Qed.

Lemma startsWith_replace_plus_plus (p s : string) :
  absent "+" p ->
  JS.startsWith (replace_plus_plus 0 s) p = JS.startsWith s p.
Proof.
  revert s. induction p as [|a p IH]; intros s Hp.
  - now rewrite !startsWith_nil.
  - destruct Hp as [Ha Hp]. destruct s as [|c tl]; [reflexivity|].
    destruct (Ascii.eqb a c) eqn:E.
    + apply Ascii.eqb_eq in E. subst c.
      rewrite replace_plus_plus_other.
      * simpl. now rewrite IH.
      * destruct (JS.startsWith (String a tl) "++") eqn:F; [|reflexivity].
        apply startsWith_spec in F. destruct F as [rest F].
        simpl in F. injection F as -> _. congruence.
    + destruct (JS.startsWith (String c tl) "++") eqn:F.
      * apply startsWith_spec in F. destruct F as [rest F].
        simpl in F. injection F as -> ->.
        rewrite replace_plus_plus_match. simpl. now rewrite E.
      * rewrite replace_plus_plus_other by assumption. simpl. now rewrite E.
Qed.

(** X9. Under the default delimiters the first mutation of the tester
    is invisible to the tokenizer: putting a release character into every
    pair of data separators changes no segment, and for a text that does
    not start with [UNA] it changes nothing in the parsed document. *)
Theorem plus_mutation_is_invisible :
  (forall text,
      splitSegments (replace_plus_plus 0 text) "'" "?"
      = splitSegments text "'" "?")
  /\ (forall text,
         JS.startsWith text "UNA" = false ->
         parse_document (replace_plus_plus 0 text) = parse_document text).
Proof.
  assert (A : forall text,
             splitSegments (replace_plus_plus 0 text) "'" "?"
             = splitSegments text "'" "?").
  { intros text. unfold splitSegments.
    now rewrite (seg_loop_replace_plus_plus (String.length text)). }
  split; [exact A|].
  intros text H. unfold parse_document, detectDelimiters.
  rewrite startsWith_replace_plus_plus, H.
  - cbv zeta. unfold segmentsRaw.
    change (segTerm default_delimiters) with "'"%char.
    change (releaseChar default_delimiters) with "?"%char.
    now rewrite A.
  - simpl. repeat split; intros F; discriminate F.
Qed.

Lemma plus_mutation_is_invisible_witness :
  parse_document (replace_plus_plus 0 "NAD+MS++X'")
  = parse_document "NAD+MS++X'".
Proof.
  apply (proj2 plus_mutation_is_invisible "NAD+MS++X'").
  reflexivity.
Defined.

(** * Properties of the fallback explainer *)

Section Explainers.

Variable mapping : MappingTable.

Lemma fallback_explainComponents_values (t : string) (i j : nat)
  (comps : list string) :
  map f_value (fallback_explainComponents mapping t i j comps) = comps.
Proof.
  revert j. induction comps as [|v comps IH]; intros j; simpl;
    [reflexivity | now rewrite IH].
Qed.

Lemma fallback_explainElements_values (t : string) (i : nat)
  (elems : list (list string)) :
  map f_value (fallback_explainElements mapping t i elems) = concat elems.
Proof.
  revert i. induction elems as [|c elems IH]; intros i; simpl;
    [reflexivity|].
  now rewrite map_app, fallback_explainComponents_values, IH.
Qed.

End Explainers.

(** X10. Explaining adds to a document and loses nothing: the fallback
    parser gives one annotated segment per segment of its document, in
    order, with the segment's tag and position, and one field per
    component, in order, with the component as value. *)
Theorem explain_keeps_the_document (text : string) :
  map (fun a => (segment a, a_position a, map f_value (fields a)))
      (baselineExplanations text)
  = map (fun s => (tag s, position s, concat (elements s)))
        (segments (b_json (baselineParseAndExplain text None))).
Proof.
  unfold baselineExplanations. cbn [b_json baselineParseAndExplain].
  rewrite map_map. apply map_ext. intros s.
  unfold fallback_explainSegment. simpl.
  now rewrite fallback_explainElements_values.
Qed.

Section UnknownTag.

Variable mapping : MappingTable.
Variable t : string.
Hypothesis unknown : lookup t mapping = None.
Hypothesis not_DTM : t <> "DTM".
Hypothesis not_RFF : t <> "RFF".

Lemma fallback_explainComponent_unknown (i j : nat) (v : string) :
  fallback_explainComponent mapping t i j v = generic_field t i j v.
Proof.
  unfold fallback_explainComponent, fallback_getFieldMeta, generic_field.
  rewrite unknown.
  apply String.eqb_neq in not_DTM, not_RFF.
  now rewrite not_DTM, not_RFF.
Qed.

Lemma fallback_explainComponents_unknown (i j : nat) (comps : list string) :
  fallback_explainComponents mapping t i j comps
  = map (fun jv => generic_field t i (fst jv) (snd jv))
        (combine (seq j (length comps)) comps).
Proof.
  revert j. induction comps as [|v comps IH]; intros j; simpl;
    [reflexivity|].
  now rewrite fallback_explainComponent_unknown, IH.
Qed.

Lemma fallback_explainElements_unknown (i : nat) (elems : list (list string)) :
  fallback_explainElements mapping t i elems
  = flat_map
      (fun ic => map (fun jv => generic_field t (fst ic) (fst jv) (snd jv))
                     (combine (seq 0 (length (snd ic))) (snd ic)))
      (combine (seq i (length elems)) elems).
Proof.
  revert i. induction elems as [|comps elems IH]; intros i; simpl;
    [reflexivity|].
  now rewrite fallback_explainComponents_unknown, IH.
Qed.

End UnknownTag.

(** X12. A segment whose tag the mapping does not know, other than DTM
    and RFF, is explained with generic labels: the description
    [Segment TAG], and for component j of element i (from 0) the path
    TAG/i+1/j+1 in two digits, the name [Component i+1.j+1], no
    description, and the component as value, in the order of the
    document. *)
Theorem unknown_tag_is_generic (mapping : MappingTable) (s : RawSegment) :
  lookup (tag s) mapping = None ->
  tag s <> "DTM" ->
  tag s <> "RFF" ->
  fallback_explainSegment mapping s
  = mkAnnSegment (tag s) (position s) ("Segment " ++ tag s)
                 (generic_fields (tag s) (elements s)).
Proof.
  intros U D R. unfold fallback_explainSegment, generic_fields.
  rewrite U. f_equal. now apply fallback_explainElements_unknown.
Qed.

Lemma unknown_tag_is_generic_witness :
  fallback_explainSegment defaultMap (mkSegment "LIN" 7 [["1"]; ["A"; "B"]])
  = mkAnnSegment "LIN" 7 "Segment LIN"
      [ mkAnnField "LIN/01/01" "Component 1.1" None "1";
        mkAnnField "LIN/02/01" "Component 2.1" None "A";
        mkAnnField "LIN/02/02" "Component 2.2" None "B" ].
Proof.
  apply (unknown_tag_is_generic defaultMap
           (mkSegment "LIN" 7 [["1"]; ["A"; "B"]])).
  - reflexivity.
  - intros H; discriminate H.
  - intros H; discriminate H.
Defined.

(** * Properties of the fallback tool *)

Lemma is_format_code_upper (s : string) :
  is_format_code s = true -> JS.toUpperCase s = s.
Proof.
  unfold is_format_code. rewrite !andb_true_iff. intros [_ H].
  induction s as [|c s IH]; [reflexivity|].
  simpl in H. apply andb_true_iff in H. destruct H as [Hc Hs].
  simpl. rewrite (IH Hs). f_equal.
  unfold JS.upper_char.
  destruct c as [[] [] [] [] [] [] [] []]; try discriminate Hc; reflexivity.
Qed.

Lemma is_format_code_truthy (s : string) :
  is_format_code s = true -> JS.truthy s = true.
Proof.
  destruct s; [discriminate | reflexivity].
Qed.

(** X13. The fallback parser reports no error.  Its format is the
    assumed one, unless the first UNH segment has, as first component of
    its second element, three to six capital letters: then the format is
    that component, whatever format was assumed. *)
Theorem fallback_format (text : string) (assumedFormat : option string) :
  b_errors (baselineParseAndExplain text assumedFormat) = []
  /\ (b_format (baselineParseAndExplain text assumedFormat) = assumedFormat
      \/ exists u t,
           find_tag "UNH" (segments (parse_document text)) = Some u
           /\ first_component u 1 = Some t
           /\ is_format_code t = true
           /\ b_format (baselineParseAndExplain text assumedFormat) = Some t)
  /\ (forall u t,
         find_tag "UNH" (segments (parse_document text)) = Some u ->
         first_component u 1 = Some t ->
         is_format_code t = true ->
         b_format (baselineParseAndExplain text assumedFormat) = Some t).
Proof.
  split; [reflexivity|]. unfold baselineParseAndExplain. cbv zeta.
  cbn [b_format segments]. split.
  - destruct (find_tag "UNH" (segments (parse_document text))) as [u|] eqn:U;
      [|now left].
    destruct (first_component u 1) as [t|] eqn:T; [|now left].
    destruct (JS.truthy t && is_format_code t) eqn:F; [|now left].
    apply andb_true_iff in F. destruct F as [_ F].
    right. exists u, t. rewrite (is_format_code_upper t F). auto.
  - intros u t U T F. rewrite U, T, F, (is_format_code_truthy t F).
    simpl. now rewrite (is_format_code_upper t F).
Qed.

Lemma fallback_format_witness :
  b_format (baselineParseAndExplain "UNH+1+APERAK:D:07B'" (Some "INVOIC"))
  = Some "APERAK".
Proof.
  apply (proj2 (proj2 (fallback_format "UNH+1+APERAK:D:07B'" (Some "INVOIC")))
           (mkSegment "UNH" 1 [["1"]; ["APERAK"; "D"; "07B"]]) "APERAK");
    reflexivity.
Defined.

(** X14. The format the tool returns without a prebuilt parser is never
    empty: it is a format that was given, derived or detected, or
    [UNKNOWN].  When the first UNH segment carries three to six capital
    letters as first component of its second element, the tool returns
    them, whatever format the caller declared. *)
Theorem tool_format_never_empty (text : string) (format : option string) :
  JS.truthy (tool_format text format) = true
  /\ (forall u t,
         find_tag "UNH" (segments (parse_document text)) = Some u ->
         first_component u 1 = Some t ->
         is_format_code t = true ->
         tool_format text format = t).
Proof.
  split.
  - unfold tool_format. cbv zeta.
    destruct (b_format (baselineParseAndExplain text (tool_fmt text format)))
      as [f|] eqn:B; simpl.
    + destruct (JS.truthy f) eqn:T; [exact T|].
      destruct (tool_fmt text format) as [g|]; simpl; [|reflexivity].
      destruct (JS.truthy g) eqn:G; [exact G | reflexivity].
    + destruct (tool_fmt text format) as [g|]; simpl; [|reflexivity].
      destruct (JS.truthy g) eqn:G; [exact G | reflexivity].
  - intros u t U T F. unfold tool_format. cbv zeta.
    rewrite (proj2 (proj2 (fallback_format text (tool_fmt text format)))
               u t U T F).
    simpl. now rewrite (is_format_code_truthy t F).
Qed.

Lemma tool_format_never_empty_witness :
  tool_format "UNH+1+APERAK:D:07B'" (Some "INVOIC") = "APERAK".
Proof.
  apply (proj2 (tool_format_never_empty "UNH+1+APERAK:D:07B'" (Some "INVOIC"))
           (mkSegment "UNH" 1 [["1"]; ["APERAK"; "D"; "07B"]]) "APERAK");
    reflexivity.
Defined.

(** * Properties of the Markdown helpers *)

Lemma mdEscape_head (s : string) :
  JS.startsWith (mdEscape s) (String PIPE "") = false.
Proof.
  destruct (JS.startsWith (mdEscape s) (String PIPE "")) eqn:F;
    [|reflexivity].
  apply startsWith_spec in F. destruct F as [rest F].
  destruct s as [|c s]; [discriminate F|]. simpl in F.
  destruct (Ascii.eqb c PIPE) eqn:E.
  - discriminate F.
  - injection F as -> _. now rewrite Ascii.eqb_refl in E.
Qed.

Lemma mdEscape_no_bare_pipe (esc : bool) (s : string) :
  has_bare_pipe esc (mdEscape s) = false.
Proof.
  revert esc. induction s as [|c s IH]; intros esc; [reflexivity|].
  simpl. destruct (Ascii.eqb c PIPE) eqn:E.
  - simpl. apply IH.
  - simpl. rewrite E. simpl. apply IH.
Qed.

Lemma md_unescape_escaped (t : string) :
  md_unescape (String BACKSLASH (String PIPE t)) = String PIPE (md_unescape t).
Proof.
  cbn [md_unescape].
  replace (JS.startsWith (String PIPE t) (String PIPE ""))
    with true by (simpl; now rewrite startsWith_nil).
  reflexivity.
Qed.

Lemma md_unescape_mdEscape (s : string) : md_unescape (mdEscape s) = s.
Proof.
  induction s as [|c s IH]; [reflexivity|].
  simpl. destruct (Ascii.eqb c PIPE) eqn:E.
  - apply Ascii.eqb_eq in E. subst c.
    rewrite md_unescape_escaped. now rewrite IH.
  - simpl. rewrite mdEscape_head, andb_false_r. now rewrite IH.
Qed.

(** X15. In an escaped cell every pipe stands directly after a
    backslash; a text without pipe is left as it is; and escaping loses
    nothing: removing the backslashes before pipes gives the text back, so
    different texts have different escaped forms. *)
Theorem mdEscape_escapes_pipes :
  (forall s, has_bare_pipe false (mdEscape s) = false)
  /\ (forall s, absent PIPE s -> mdEscape s = s)
  /\ (forall s, md_unescape (mdEscape s) = s)
  /\ (forall s1 s2, mdEscape s1 = mdEscape s2 -> s1 = s2).
Proof.
  split; [|split; [|split]].
  - intros s. apply mdEscape_no_bare_pipe.
  - intros s. induction s as [|c s IH]; [reflexivity|].
    intros [Hc Hs]. simpl. apply Ascii.eqb_neq in Hc. rewrite Hc.
    now rewrite IH.
  - apply md_unescape_mdEscape.
  - intros s1 s2 H.
    rewrite <- (md_unescape_mdEscape s1), <- (md_unescape_mdEscape s2).
    now rewrite H.
Qed.

Lemma mdEscape_escapes_pipes_witness :
  mdEscape "1.5 kWh" = "1.5 kWh" /\ "a|b" = "a|b".
Proof.
  split.
  - apply (proj1 (proj2 mdEscape_escapes_pipes) "1.5 kWh").
    simpl. repeat split; intros H; discriminate H.
  - apply (proj2 (proj2 (proj2 mdEscape_escapes_pipes)) "a|b" "a|b").
    reflexivity.
Defined.

Lemma group_add_lookup (s : AnnotatedSegment)
  (groups : list (string * list AnnotatedSegment)) (k : string) :
  lookup k (group_add s groups)
  = if String.eqb k (segment s)
    then Some (match lookup k groups with
               | Some g => g ++ [s]
               | None => [s]
               end)
    else lookup k groups.
Proof.
  induction groups as [|[k' g] groups IH]; simpl.
  - rewrite String.eqb_sym. now destruct (String.eqb k (segment s)).
  - destruct (String.eqb k' (segment s)) eqn:E1; simpl.
    + apply String.eqb_eq in E1. subst k'.
      rewrite (String.eqb_sym (segment s) k).
      now destruct (String.eqb k (segment s)).
    + destruct (String.eqb k' k) eqn:E2.
      * apply String.eqb_eq in E2. subst k'.
        now rewrite E1.
      * apply IH.
Qed.

Lemma group_add_keys (s : AnnotatedSegment)
  (groups : list (string * list AnnotatedSegment)) :
  NoDup (map fst groups) ->
  NoDup (map fst (group_add s groups))
  /\ forall k, In k (map fst (group_add s groups))
               <-> k = segment s \/ In k (map fst groups).
Proof.
  induction groups as [|[k' g] groups IH]; simpl; intros N.
  - split; [repeat constructor; auto | intros k; intuition].
  - inversion N as [|? ? Hn Hr]; subst.
    destruct (String.eqb k' (segment s)) eqn:E; simpl.
    + apply String.eqb_eq in E. subst k'.
      split; [exact N | intros k; intuition].
    + destruct (IH Hr) as [N' I']. split.
      * constructor; [|exact N'].
        intros H. apply I' in H. destruct H as [H | H]; [|contradiction].
        subst k'. now rewrite String.eqb_refl in E.
      * intros k. rewrite I'. intuition.
Qed.

Lemma group_fold (segs : list AnnotatedSegment)
  (groups : list (string * list AnnotatedSegment)) :
  NoDup (map fst groups) ->
  let G := fold_left (fun gs s => group_add s gs) segs groups in
  NoDup (map fst G)
  /\ forall k,
       lookup k G
       = match lookup k groups,
               filter (fun s => String.eqb k (segment s)) segs with
         | None, [] => None
         | None, l => Some l
         | Some g, l => Some (g ++ l)
         end.
Proof.
  revert groups. induction segs as [|s segs IH]; intros groups N; simpl.
  - split; [exact N|]. intros k.
    destruct (lookup k groups); [now rewrite app_nil_r | reflexivity].
  - destruct (group_add_keys s groups N) as [N' _].
    destruct (IH (group_add s groups) N') as [N2 L]. split; [exact N2|].
    intros k. rewrite L, group_add_lookup.
    destruct (String.eqb k (segment s)); [|reflexivity].
    destruct (lookup k groups) as [g|].
    + now rewrite <- app_assoc.
    + reflexivity.
Qed.

(** X16. Grouping the annotated segments by tag keeps every tag once,
    and under each tag exactly the segments with that tag, in their
    order; a tag without segment has no group. *)
Theorem group_segments_by_tag (segs : list AnnotatedSegment) :
  NoDup (map fst (group_segments segs))
  /\ forall k,
       lookup k (group_segments segs)
       = match filter (fun s => String.eqb k (segment s)) segs with
         | [] => None
         | l => Some l
         end.
Proof.
  unfold group_segments.
  destruct (group_fold segs [] (NoDup_nil _)) as [N L].
  split; [exact N|]. intros k. exact (L k).
Qed.

Lemma header_add_spec (h : string) (hs : list string) :
  NoDup hs ->
  NoDup (header_add h hs)
  /\ forall k, In k (header_add h hs) <-> k = h \/ In k hs.
Proof.
  induction hs as [|x hs IH]; simpl; intros N.
  - split; [repeat constructor; auto | intros k; intuition].
  - inversion N as [|? ? Hn Hr]; subst.
    destruct (String.eqb x h) eqn:E.
    + apply String.eqb_eq in E. subst x.
      split; [exact N | intros k; simpl; intuition].
    + destruct (IH Hr) as [N' I']. split.
      * constructor; [|exact N'].
        intros H. apply I' in H. destruct H as [H | H]; [|contradiction].
        subst x. now rewrite String.eqb_refl in E.
      * intros k. simpl. rewrite I'. intuition.
Qed.

Lemma headers_fold (fs : list AnnotatedField) (hs : list string) :
  NoDup hs ->
  let H := fold_left (fun hs f => header_add (field_key f) hs) fs hs in
  NoDup H
  /\ forall k, In k H <-> In k hs \/ exists f, In f fs /\ field_key f = k.
Proof.
  revert hs. induction fs as [|f fs IH]; intros hs N; simpl.
  - split; [exact N|]. intros k. split; [auto|].
    intros [H | [f [[] _]]]. exact H.
  - destruct (header_add_spec (field_key f) hs N) as [N' I'].
    destruct (IH _ N') as [N2 I2]. split; [exact N2|].
    intros k. rewrite I2, I'. split.
    + intros [[-> | H] | [g [Hg E]]]; eauto.
    + intros [H | [g [[<- | Hg] E]]]; eauto.
Qed.

(** X17. The header row of a table names every field of the group's
    segments once: the headers are pairwise different, and a text is a
    header exactly when it is the name, or for a nameless field the path,
    of some field of some segment of the group. *)
Theorem table_headers_cover_fields (segs : list AnnotatedSegment) :
  NoDup (table_headers segs)
  /\ forall h,
       In h (table_headers segs)
       <-> exists s f, In s segs /\ In f (fields s) /\ field_key f = h.
Proof.
  unfold table_headers.
  destruct (headers_fold (flat_map fields segs) [] (NoDup_nil _)) as [N I].
  split; [exact N|]. intros h. rewrite (I h). split.
  - intros [[] | [f [Hf E]]]. apply in_flat_map in Hf.
    destruct Hf as [s [Hs Hf]]. now exists s, f.
  - intros [s [f [Hs [Hf E]]]]. right. exists f. split; [|exact E].
    apply in_flat_map. now exists s.
Qed.

(** * The scanner against plain splitting, and line feeds *)

Lemma elt_loop_split (sep rel : ascii) (str : string) (st : elt_state) :
  absent rel str ->
  elt_released st = false ->
  let st' := elt_loop sep rel str st in
  elt_out st' ++ [elt_cur st']
  = elt_out st ++ split_loop sep (elt_cur st) str.
Proof.
  revert st. induction str as [|c str IH]; intros st N R; simpl.
  - reflexivity.
  - destruct N as [Hc N]. apply Ascii.eqb_neq in Hc.
    unfold elt_step. rewrite R, Hc.
    destruct (Ascii.eqb c sep).
    + rewrite IH by (assumption || reflexivity). simpl.
      now rewrite <- app_assoc.
    + now rewrite IH by (assumption || reflexivity).
Qed.

(** X18. On a body without release character the escape-aware splitter
    gives what [String.prototype.split] gives for the same separator. *)
Theorem splitElements_is_split (str : string) (sep rel : ascii) :
  absent rel str ->
  splitElements str sep rel = split_string sep str.
Proof.
  intros N. unfold splitElements, split_string.
  now rewrite (elt_loop_split sep rel str elt_init N eq_refl).
Qed.

Lemma splitElements_is_split_witness :
  splitElements "1+APERAK:D++X" "+" "?" = split_string "+" "1+APERAK:D++X".
Proof.
  apply (splitElements_is_split "1+APERAK:D++X" "+" "?").
  simpl. repeat split; intros H; discriminate H.
Defined.

(** X19. The second derivation of the format from the text in the tool
    never changes the format: what the tool hands to the fallback parser
    is the declared format when it is not empty, else the format of the
    first derivation when there is one, else the declared format. *)
Theorem second_derivation_is_idle (text : string) (format : option string) :
  tool_fmt text format
  = if truthy_format format then format
    else match format_from_text text with
         | Some f => Some f
         | None => format
         end.
Proof.
  unfold tool_fmt.
  destruct (truthy_format format) eqn:F.
  - now rewrite F.
  - destruct (format_from_text text) as [f|] eqn:E.
    + simpl. now destruct (JS.truthy f).
    + now rewrite F.
Qed.

Section NoChar.

Variable x : ascii.

Lemma trimStart_no_char (s : string) :
  absent x s -> absent x (JS.trimStart s).
Proof.
  induction s as [|c s IH]; simpl; [auto|].
  intros [Hc Hs]. destruct (JS.is_white_space c); [now apply IH|].
  now split.
Qed.

Lemma trimEnd_no_char (s : string) :
  absent x s -> absent x (JS.trimEnd s).
Proof.
  induction s as [|c s IH]; simpl; [auto|].
  intros [Hc Hs]. specialize (IH Hs).
  destruct (JS.trimEnd s) as [|d r].
  - destruct (JS.is_white_space c); simpl; auto.
  - simpl. auto.
Qed.

Lemma append_no_char (a b : string) :
  absent x a -> absent x b -> absent x (a ++ b).
Proof.
  induction a as [|c a IH]; simpl; [auto|].
  intros [Hc Ha] Hb. auto.
Qed.

Lemma slice_from_no_char (n : nat) (s : string) :
  absent x s -> absent x (JS.slice_from n s).
Proof.
  revert s. induction n as [|n IH]; intros [|c s]; simpl; auto.
  intros [_ Hs]. now apply IH.
Qed.

Lemma slice_to_no_char (n : nat) (s : string) :
  absent x s -> absent x (JS.slice_to n s).
Proof.
  revert s. induction n as [|n IH]; intros [|c s]; simpl; auto.
  intros [Hc Hs]. split; [exact Hc | now apply IH].
Qed.

Lemma elt_loop_no_char (sep rel : ascii) (str : string) (st : elt_state) :
  absent x str ->
  Forall (absent x) (elt_out st) ->
  absent x (elt_cur st) ->
  Forall (absent x) (elt_out (elt_loop sep rel str st))
  /\ absent x (elt_cur (elt_loop sep rel str st)).
Proof.
  revert st. induction str as [|c str IH]; intros st N O C; simpl; [auto|].
  destruct N as [Hc N].
  assert (P : absent x (JS.push_char (elt_cur st) c)).
  { unfold JS.push_char. apply append_no_char; simpl; auto. }
  apply IH; [exact N | |]; unfold elt_step;
    destruct (elt_released st); simpl; auto;
    destruct (Ascii.eqb c rel); simpl; auto;
    destruct (Ascii.eqb c sep); simpl; auto.
  apply Forall_app. split; [exact O | now constructor].
Qed.

Lemma splitElements_no_char (str : string) (sep rel : ascii) :
  absent x str -> Forall (absent x) (splitElements str sep rel).
Proof.
  intros N. unfold splitElements.
  destruct (elt_loop_no_char sep rel str elt_init N) as [O C];
    [constructor | exact I |].
  apply Forall_app. split; [exact O | now constructor].
Qed.

End NoChar.

Lemma strip_newlines_no_LF (s : string) :
  absent JS.LF (JS.strip_newlines s).
Proof.
  induction s as [|c s IH]; simpl; [exact I|].
  destruct (Ascii.eqb c JS.LF) eqn:E; [exact IH|].
  destruct (Ascii.eqb c JS.CR && JS.startsWith s (String JS.LF ""));
    [exact IH|].
  simpl. split; [now apply Ascii.eqb_neq | exact IH].
Qed.

Lemma upper_char_LF (c : ascii) : c <> JS.LF -> JS.upper_char c <> JS.LF.
Proof.
  destruct c as [[] [] [] [] [] [] [] []]; intros H;
    try (intros F; discriminate F).
  exfalso. apply H. reflexivity.
Qed.

Lemma toUpperCase_no_LF (s : string) :
  absent JS.LF s -> absent JS.LF (JS.toUpperCase s).
Proof.
  induction s as [|c s IH]; simpl; [auto|].
  intros [Hc Hs]. split; [now apply upper_char_LF | now apply IH].
Qed.

(** X20. No line feed survives into a document: neither the tag nor any
    component of any segment contains one. *)
Theorem no_line_feed_in_documents (text : string) :
  Forall (fun s => absent JS.LF (tag s)
                   /\ Forall (Forall (absent JS.LF)) (elements s))
         (segments (parse_document text)).
Proof.
  unfold parse_document. cbn [segments].
  set (d := detectDelimiters text).
  assert (R : Forall (absent JS.LF) (segmentsRaw text d)).
  { apply Forall_forall. intros r Hr. unfold segmentsRaw in Hr.
    apply filter_In in Hr. destruct Hr as [Hr _].
    apply in_map_iff in Hr. destruct Hr as [s [<- _]].
    unfold JS.trim. apply trimEnd_no_char, trimStart_no_char.
    apply strip_newlines_no_LF. }
  revert R. generalize (segmentsRaw text d). generalize 0 as pos.
  intros pos raws. revert pos.
  induction raws as [|r raws IH]; intros pos R; simpl; [constructor|].
  inversion R as [|? ? Hr Hrs]; subst.
  constructor; [|now apply IH].
  unfold build_segment. cbn [tag elements]. split.
  - apply toUpperCase_no_LF. unfold JS.slice.
    now apply slice_to_no_char, slice_from_no_char.
  - apply Forall_forall. intros e He. apply in_map_iff in He.
    destruct He as [el [<- Hel]]. apply splitElements_no_char.
    revert el Hel. apply Forall_forall. apply splitElements_no_char.
    destruct (JS.startsWith _ _); repeat apply slice_from_no_char; exact Hr.
Qed.
